(** * HFS authentication core (src/auth.ts): SRP check, verification cache,
      login state.

    The development embeds [src/auth.ts] shallowly.  Thrown values are an
    explicit error type, promises and timers of the verification cache are an
    explicit store with a millisecond clock, and the collaborators the file
    imports ([./perm], [tssrp6a], [./srp], [node:crypto], [BigInt]) are
    interfaces (type classes) over which every statement is generic. *)

From stdpp Require Import base strings gmap sets list pretty.
From Stdlib Require Import Ascii ZArith Lia.

Local Open Scope string_scope.

(** ** Thrown values and results *)

(** What the code can throw: a bare status number ([throw HTTP_NOT_ACCEPTABLE]),
    an [Error(message)], the [SyntaxError] of [BigInt(text)] on a text that is
    not an integer literal, the http error built by Koa's [ctx.throw], and a
    rejection raised inside the SRP library or the client part. *)
Inductive exn : Type :=
| ThrowStatus (code : Z)
| Error (message : string)
| SyntaxError (input : string)
| HttpError (status : Z) (message : string)
| Rejected (reason : string).

Inductive res (A : Type) : Type :=
| Ok (a : A)
| Throw (e : exn).
Arguments Ok {A} a.
Arguments Throw {A} e.

Definition res_bind {A B : Type} (m : res A) (f : A → res B) : res B :=
  match m with
  | Ok a => f a
  | Throw e => Throw e
  end.

Definition is_Ok {A : Type} (m : res A) : bool :=
  match m with Ok _ => true | Throw _ => false end.

#[global] Instance exn_eq_dec : EqDecision exn.
Proof. solve_decision. Defined.

#[global] Instance res_eq_dec {A : Type} `{EqDecision A} : EqDecision (res A).
Proof. solve_decision. Defined.

(** ** Constants of [./cross-const] *)

(** Modelled from the spec: the constant [HTTP_SERVER_ERROR] of
    [./cross-const], a file that is not under src/.  Section 7 of the spec has
    a missing session transport surfaced as a server error of the 5xx class;
    the constant is the status "500 Internal Server Error". *)
Definition HTTP_SERVER_ERROR : Z := 500.

(** Modelled from the spec: the constant [HTTP_NOT_ACCEPTABLE] of
    [./cross-const], a file that is not under src/.  Section 7 of the spec
    calls the rejection "not acceptable"; the constant is the status
    "406 Not Acceptable". *)
Definition HTTP_NOT_ACCEPTABLE : Z := 406.

(** ** Data model *)

(** [Account] of [./perm], restricted to the two fields [auth.ts] reads.
    [srp] is optional ([account.srp] may be undefined). *)
Record Account : Type := mkAccount {
  username : string;
  srp : option string;
}.

#[global] Instance Account_eq_dec : EqDecision Account.
Proof. solve_decision. Defined.

(** [ctx.session]: an object with an optional [username] field. *)
Record Session : Type := mkSession {
  session_username : option string;
}.

#[global] Instance Session_eq_dec : EqDecision Session.
Proof. solve_decision. Defined.

(** The part of a Koa [Context] that [auth.ts] touches: [ctx.session] (absent
    when no session transport is attached) and [ctx.state.account]. *)
Record Context : Type := mkContext {
  session : option Session;
  state_account : option Account;
}.

#[global] Instance Context_eq_dec : EqDecision Context.
Proof. solve_decision. Defined.

(** ** JavaScript helpers *)

(** Truthiness of a value of type [string | undefined]. *)
Definition truthy (v : option string) : bool :=
  match v with
  | Some s => negb (bool_decide (s = ""))
  | None => false
  end.

(** [v || d] on [string | undefined]. *)
Definition js_or (v : option string) (d : string) : string :=
  match v with
  | Some s => if truthy (Some s) then s else d
  | None => d
  end.

(** [s.split(sep)] for a one-character separator: never empty, the pieces
    between the occurrences of [sep]. *)
Fixpoint split (sep : ascii) (s : string) : list string :=
  match s with
  | EmptyString => [""]
  | String c rest =>
      if bool_decide (c = sep) then "" :: split sep rest
      else match split sep rest with
           | piece :: pieces => String c piece :: pieces
           | [] => [String c ""]
           end
  end.

(** ** Collaborators *)

(** [./perm]: the account store. *)
Class Perm : Type := {
  getAccount : string → option Account;
  normalizeUsername : string → string;
}.

(** The platform: [createHash('sha256').update(text).digest("hex")] and
    [BigInt(text)], which throws a [SyntaxError] ([None]) on a text that is
    not an integer literal. *)
Class Platform : Type := {
  sha256_hex : string → string;
  BigInt : string → option Z;
}.

(** What [srpClientPart] resolves to: the client's public value and proof. *)
Record SRPClientSessionStep2 : Type := mkClient {
  A : Z;
  M1 : Z;
}.

(** [tssrp6a] and [./srp]: the server session's [step1], the [step2] of the
    object it resolves to (resolving with M2 or rejecting), and the client part
    that [srpCheck] runs against its own server session.  Each of them is
    asynchronous and may reject. *)
Class Srp6a : Type := {
  SRPServerSessionStep1 : Type;
  B : SRPServerSessionStep1 → Z;
  step1 : string → Z → Z → res SRPServerSessionStep1;
  step2 : SRPServerSessionStep1 → Z → Z → res Z;
  srpClientPart : string → string → string → string → res SRPClientSessionStep2;
}.

Section Auth.
Context {store : Perm} {node : Platform} {lib : Srp6a}.

(** ** Session manager *)

(** [getCurrentUsername]: [ctx.state.account?.username || '']. *)
Definition getCurrentUsername (ctx : Context) : string :=
  js_or (username <$> state_account ctx) "".

(** [setLoggedIn(ctx, username)], with [None] for [false].  The result is what
    the call resolves or rejects with, the context and the module-level
    [invalidSessions] set afterwards. *)
Definition setLoggedIn (ctx : Context) (u : option string)
    (invalidSessions : gset string) : res () * Context * gset string :=
  match session ctx with
  | None => (Throw (HttpError HTTP_SERVER_ERROR "session"), ctx, invalidSessions)
  | Some s =>
      match u with
      | None =>
          (Ok (),
           mkContext (Some (mkSession None)) (state_account ctx),
           invalidSessions)
      | Some name =>
          (Ok (),
           mkContext (Some (mkSession (Some (normalizeUsername name))))
                     (getAccount name),
           invalidSessions ∖ {[ name ]})
      end
  end.

(** The spec's [isInvalidated]: membership in [invalidSessions]. *)
Definition isInvalidated (name : string) (invalidSessions : gset string) : bool :=
  bool_decide (name ∈ invalidSessions).

(** ** SRP engine *)

(** [srpStep1(account)].  The checks and the two [BigInt] conversions run in
    order; a thrown value rejects the promise the async function returns.  It
    resolves to [{ step1, salt, pubKey: String(step1.B) }]. *)
Definition srpStep1 (account : Account)
    : res (SRPServerSessionStep1 * string * string) :=
  if negb (truthy (srp account)) then Throw (ThrowStatus HTTP_NOT_ACCEPTABLE)
  else
    let parts := split "|" (default "" (srp account)) in
    let salt := parts !! 0%nat in
    let verifier := parts !! 1%nat in
    if negb (truthy salt) || negb (truthy verifier)
    then Throw (Error "malformed account")
    else
      let salt := default "" salt in
      let verifier := default "" verifier in
      match BigInt salt with
      | None => Throw (SyntaxError salt)
      | Some s =>
          match BigInt verifier with
          | None => Throw (SyntaxError verifier)
          | Some v =>
              res_bind (step1 (username account) s v)
                (λ st, Ok (st, salt, pretty (B st)))
          end
      end.

(** ** Verification cache *)

(** A promise stored in [cache]: still running the creator of [srpCheck] for
    the captured [username], [password], [account] and key [k], or settled
    (resolved with 1 or 0, or rejected). *)
Inductive promise : Type :=
| Pending (u p : string) (account : Account) (k : string)
| Settled (good : res Z).

(** The module-level state of the cache and of the event loop around it:
    the [cache] object (key to promise, a promise being its index in the
    store), the pending [setTimeout] callbacks [delete cache[k]] with their
    deadlines, the clock in milliseconds, and a ghost counter of the
    invocations of the creator, each of which starts one SRP handshake. *)
Record State : Type := mkState {
  cache : gmap string nat;
  promises : list promise;
  timers : list (Z * string);
  now : Z;
  handshakes : nat;
}.

Definition set_cache (c : gmap string nat) (σ : State) : State :=
  mkState c (promises σ) (timers σ) (now σ) (handshakes σ).

Definition set_promises (ps : list promise) (σ : State) : State :=
  mkState (cache σ) ps (timers σ) (now σ) (handshakes σ).

Definition initial : State := mkState ∅ [] [] 0 0.

(** Code that may throw and that acts on [State]; a throw keeps the effects
    made before it. *)
Definition M (T : Type) : Type := State → res T * State.

Definition ret {T : Type} (t : T) : M T := λ σ, (Ok t, σ).

Definition bind {T U : Type} (m : M T) (f : T → M U) : M U :=
  λ σ, match m σ with
       | (Ok t, σ') => f t σ'
       | (Throw e, σ') => (Throw e, σ')
       end.

(** [await] of an asynchronous call of a collaborator. *)
Definition await {T : Type} (r : res T) : M T := λ σ, (r, σ).

(** [setTimeout(() => delete cache[k], delay)]. *)
Definition setTimeout_delete (k : string) (delay : Z) : M () :=
  λ σ, (Ok (), mkState (cache σ) (promises σ)
                 (timers σ ++ [((now σ + delay)%Z, k)]) (now σ) (handshakes σ)).

(** The body of the creator that [srpCheck] passes to [getOrSet], lines 28 to
    31: [step1.step2(client.A, client.M1).then(() => 1, () => 0)]. *)
Definition creator (u p : string) (account : Account) (k : string) : M Z :=
  bind (await (srpStep1 account)) (λ '(st, salt, pubKey),
  bind (await (srpClientPart u p salt pubKey)) (λ client,
  bind (setTimeout_delete k 60000) (λ _,
  ret (if is_Ok (step2 st (A client) (M1 client)) then 1%Z else 0%Z)))).

(** The SRP exchange that the creator drives, as a value: whether [step2]
    accepts the proof that the client part computes from [username] and
    [password] against the salt and verifier stored for the account.
    [Ok true] is a pair that matches the stored verifier, [Ok false] one that
    does not; a throw is a failure of the account record or of the library. *)
Definition exchange (u p : string) (account : Account) : res bool :=
  res_bind (srpStep1 account) (λ '(st, salt, pubKey),
  res_bind (srpClientPart u p salt pubKey) (λ client,
  Ok (is_Ok (step2 st (A client) (M1 client))))).

(** The promise the creator settles with, from the exchange. *)
Definition settled_with (x : res bool) : res Z :=
  match x with
  | Ok b => Ok (if b then 1%Z else 0%Z)
  | Throw e => Throw e
  end.

(** Invoking the creator: an async function returns its promise at once; the
    promise is new in the store and one more handshake has started. *)
Definition invoke_creator (u p : string) (account : Account) (k : string)
    (σ : State) : nat * State :=
  (length (promises σ),
   mkState (cache σ) (promises σ ++ [Pending u p account k]) (timers σ)
           (now σ) (S (handshakes σ))).

(** Modelled from the spec: [getOrSet] of [./cross], a file that is not under
    src/.  Steps 3 and 4 of the spec's [verify]: if an entry exists for the
    key it is returned, whether pending or settled; otherwise the creator is
    run and what it returns is stored under the key and returned. *)
Definition getOrSet (k : string) (create : State → nat * State) (σ : State)
    : nat * State :=
  match cache σ !! k with
  | Some v => (v, σ)
  | None => let '(v, σ') := create σ in (v, set_cache (<[k := v]> (cache σ')) σ')
  end.

(** The key of line 26. *)
Definition fingerprint (u p : string) (account : Account) : string :=
  sha256_hex (u +:+ p +:+ default "" (srp account)).

(** Where a call of [srpCheck] stands when it gives up control: it has
    returned, or it awaits a promise of the cache. *)
Inductive awaiting : Type :=
| Returned (v : option Account)
| Await (pid : nat) (account : Account).

(** [srpCheck(username, password)] up to its [await], lines 24 to 27. *)
Definition srpCheck_call (u p : string) (σ : State) : awaiting * State :=
  match getAccount u with
  | None => (Returned None, σ)
  | Some account =>
      if negb (truthy (srp account)) || negb (truthy (Some p))
      then (Returned None, σ)
      else
        let k := fingerprint u p account in
        let '(pid, σ') := getOrSet k (invoke_creator u p account k) σ in
        (Await pid account, σ')
  end.

(** Line 33: [good ? account : undefined]; a rejected promise makes the
    [await] throw. *)
Definition srpCheck_return (account : Account) (good : res Z)
    : res (option Account) :=
  match good with
  | Ok g => Ok (if bool_decide (g = 0%Z) then None else Some account)
  | Throw e => Throw e
  end.

(** The event loop runs the creator behind the pending promise [pid] to its
    end, at the current time, and settles the promise. *)
Definition settle (pid : nat) (σ : State) : State :=
  match promises σ !! pid with
  | Some (Pending u p account k) =>
      let '(good, σ') := creator u p account k σ in
      set_promises (<[pid := Settled good]> (promises σ')) σ'
  | _ => σ
  end.

Definition due (t : Z) (timer : Z * string) : bool := bool_decide (timer.1 ≤ t)%Z.

(** [dt] milliseconds pass: the callbacks whose deadline is reached run, each
    deleting its key from [cache]. *)
Definition advance (dt : Z) (σ : State) : State :=
  let t := (now σ + dt)%Z in
  mkState
    (foldr (λ timer c, delete timer.2 c) (cache σ) (filter (λ tm, due t tm = true) (timers σ)))
    (promises σ)
    (filter (λ tm, due t tm = false) (timers σ))
    t
    (handshakes σ).

(** What the caller standing at [w] gets once its promise is settled. *)
Definition outcome (σ : State) (w : awaiting) : option (res (option Account)) :=
  match w with
  | Returned v => Some (Ok v)
  | Await pid account =>
      match promises σ !! pid with
      | Some (Settled good) => Some (srpCheck_return account good)
      | _ => None
      end
  end.

(** One call of [srpCheck] run to its end with nothing else in between. *)
Definition srpCheck (u p : string) (σ : State)
    : option (res (option Account)) * State :=
  let '(w, σ1) := srpCheck_call u p σ in
  let σ2 := match w with
            | Returned _ => σ1
            | Await pid _ => settle pid σ1
            end in
  (outcome σ2 w, σ2).

(** [n] calls with the same arguments issued in the same turn of the event
    loop: each runs up to its [await] before any promise settles. *)
Fixpoint simultaneous (n : nat) (u p : string) (σ : State)
    : list awaiting * State :=
  match n with
  | O => ([], σ)
  | S n' =>
      let '(w, σ1) := srpCheck_call u p σ in
      let '(ws, σ2) := simultaneous n' u p σ1 in
      (w :: ws, σ2)
  end.

(** What can happen to the cache between two turns of the event loop: a
    call of [srpCheck] runs up to its [await], the creator behind a promise
    runs to its end, or time passes. *)
Inductive step : State → State → Prop :=
| step_call (u p : string) (σ : State) : step σ (srpCheck_call u p σ).2
| step_settle (pid : nat) (σ : State) : step σ (settle pid σ)
| step_advance (dt : Z) (σ : State) : (0 ≤ dt)%Z → step σ (advance dt σ).

(** The states the module can be in, from its load on. *)
Definition reachable (σ : State) : Prop := rtc step initial σ.

(** The shape every reachable state has: a pending timer belongs to an entry
    whose promise is settled, a pending promise is the entry of its key, and
    no key has two timers. *)
Record coherent (σ : State) : Prop := mkCoherent {
  timers_settled : ∀ tm : Z * string, tm ∈ timers σ →
    ∃ (pid : nat) (good : res Z),
      cache σ !! tm.2 = Some pid ∧ promises σ !! pid = Some (Settled good);
  pending_cached : ∀ (pid : nat) (u p : string) (account : Account) (k : string),
    promises σ !! pid = Some (Pending u p account k) → cache σ !! k = Some pid;
  timers_nodup : NoDup (timers σ).*2;
}.

End Auth.

(** ** A concrete instance of the collaborators

    A small account store and stand-ins for the platform and the SRP library,
    on which the statements below are exercised. *)
Module Fixture.

Definition lower (c : ascii) : ascii :=
  let n := nat_of_ascii c in
  if bool_decide (65 ≤ n ≤ 90)%nat then ascii_of_nat (n + 32) else c.

Fixpoint toLowerCase (s : string) : string :=
  match s with
  | EmptyString => EmptyString
  | String c rest => String (lower c) (toLowerCase rest)
  end.

Definition digit (c : ascii) : option Z :=
  let n := nat_of_ascii c in
  if bool_decide (48 ≤ n ≤ 57)%nat then Some (Z.of_nat n - 48)%Z else None.

Fixpoint digits (acc : Z) (s : string) : option Z :=
  match s with
  | EmptyString => Some acc
  | String c rest =>
      match digit c with
      | Some d => digits (10 * acc + d)%Z rest
      | None => None
      end
  end.

(** [BigInt(text)] on unsigned decimal literals; the empty text is 0. *)
Definition BigInt_decimal (s : string) : option Z := digits 0 s.

Fixpoint hash (acc : Z) (s : string) : Z :=
  match s with
  | EmptyString => acc
  | String c rest => hash (31 * acc + Z.of_nat (nat_of_ascii c))%Z rest
  end.

(** The private value a password stands for, and the verifier stored for it. *)
Definition private (u p : string) (salt : Z) : Z := (hash 0 (u +:+ ":" +:+ p) + salt)%Z.
Definition verifier_of (x : Z) : Z := (2 * x + 1)%Z.

Record ServerStep1 : Type := mkServerStep1 {
  identifier : string;
  server_salt : Z;
  server_verifier : Z;
  server_B : Z;
}.

Definition server_step1 (i : string) (s v : Z) : res ServerStep1 :=
  Ok (mkServerStep1 i s v (v + 5)%Z).

Definition server_step2 (st : ServerStep1) (a m1 : Z) : res Z :=
  if bool_decide (m1 = server_verifier st + server_B st)%Z
  then Ok (m1 + a)%Z
  else Throw (Rejected "Bad client credentials").

Definition client_part (u p salt pubKey : string) : res SRPClientSessionStep2 :=
  match BigInt_decimal salt, BigInt_decimal pubKey with
  | Some s, Some b => Ok (mkClient 9 (verifier_of (private u p s) + b)%Z)
  | None, _ => Throw (SyntaxError salt)
  | _, None => Throw (SyntaxError pubKey)
  end.

Definition alice : Account :=
  mkAccount "alice" (Some "7|5112011088245402083").
Definition bob : Account := mkAccount "bob" (Some "onlysalt").
Definition carol : Account := mkAccount "carol" None.
Definition dave : Account := mkAccount "dave" (Some "12x|34").

Definition accounts : gmap string Account :=
  list_to_map [("alice", alice); ("bob", bob); ("carol", carol); ("dave", dave)].

#[export] Instance perm : Perm := {|
  getAccount u := accounts !! toLowerCase u;
  normalizeUsername := toLowerCase;
|}.

#[export] Instance platform : Platform := {|
  sha256_hex s := "sha256:" +:+ s;
  BigInt := BigInt_decimal;
|}.

#[export] Instance srp6a : Srp6a := {|
  SRPServerSessionStep1 := ServerStep1;
  B := server_B;
  step1 := server_step1;
  step2 := server_step2;
  srpClientPart := client_part;
|}.

(** A request context with a session and nobody logged in. *)
Definition anonymous : Context := mkContext (Some (mkSession None)) None.

(** The context of a request in which alice has just logged in. *)
Definition logged_in : Context :=
  (setLoggedIn anonymous (Some "alice") (∅ : gset string)).1.2.

(** A context with no session transport attached. *)
Definition no_session : Context := mkContext None None.

(** The cache a little after a check of bob's password has run. *)
Definition busy : State :=
  advance 5 (settle 0 (srpCheck_call "bob" "pw" initial).2).

End Fixture.

(** * More of the code: helpers *)

(** [pieces.join(sep)]; with the comma for [sep] it is also what
    [String(pieces)] gives, and what [text + pieces] appends to [text]. *)
Fixpoint join (sep : string) (pieces : list string) : string :=
  match pieces with
  | [] => ""
  | piece :: rest =>
      match rest with
      | [] => piece
      | _ :: _ => piece +:+ sep +:+ join sep rest
      end
  end.

(** Whether the character [c] occurs in [s]. *)
Fixpoint occurs (c : ascii) (s : string) : bool :=
  match s with
  | EmptyString => false
  | String c' rest => bool_decide (c' = c) || occurs c rest
  end.

Section CacheInvariants.
Context {store : Perm} {node : Platform} {lib : Srp6a}.

(** More of the shape of a reachable state: an entry of [cache] is a promise
    of the store, the creator behind a pending promise was invoked for an
    account that [getAccount] resolves, with SRP material and a non-empty
    password, under the key of line 26, and a pending timer is due within the
    next 60 seconds. *)
Record sound (σ : State) : Prop := mkSound {
  cache_in_store : ∀ (k : string) (pid : nat),
    cache σ !! k = Some pid → (pid < length (promises σ))%nat;
  pending_closure : ∀ (pid : nat) (u p : string) (account : Account) (k : string),
    promises σ !! pid = Some (Pending u p account k) →
    getAccount u = Some account ∧ truthy (srp account) = true ∧ p ≠ "" ∧
    k = fingerprint u p account;
  timers_in_window : ∀ tm : Z * string,
    tm ∈ timers σ → (now σ < tm.1 ≤ now σ + 60000)%Z;
}.

(** What a later state keeps of an earlier one: the clock and the count of
    handshakes do not go back, a settled promise stays as it settled, and a
    pending one stays pending or settles with the verdict of its own
    exchange. *)
Record later (σ σ' : State) : Prop := mkLater {
  now_mono : (now σ ≤ now σ')%Z;
  handshakes_mono : (handshakes σ ≤ handshakes σ')%nat;
  settled_kept : ∀ (pid : nat) (good : res Z),
    promises σ !! pid = Some (Settled good) →
    promises σ' !! pid = Some (Settled good);
  pending_settles : ∀ (pid : nat) (u p : string) (account : Account) (k : string),
    promises σ !! pid = Some (Pending u p account k) →
    promises σ' !! pid = Some (Pending u p account k) ∨
    promises σ' !! pid = Some (Settled (settled_with (exchange u p account)));
}.

End CacheInvariants.

(** How many times the character [c] occurs in [s]. *)
Fixpoint count (c : ascii) (s : string) : nat :=
  match s with
  | EmptyString => O
  | String c' rest => if bool_decide (c' = c) then S (count c rest) else count c rest
  end.

(** A second account store, in which two accounts were given the same SRP
    material. *)
Module Shared.

Definition ab : Account := mkAccount "ab" (Some "7|5971619").
Definition a : Account := mkAccount "a" (Some "7|5971619").

Definition accounts : gmap string Account := list_to_map [("ab", ab); ("a", a)].

Definition perm : Perm := {|
  getAccount u := accounts !! u;
  normalizeUsername u := u;
|}.

End Shared.

(** * More of the code: the table of countries (admin/src/countries.ts) *)

Module Countries.

(** The line feed, the separator of the lines of the table. *)
Definition LF : ascii := ascii_of_nat 10.

(** A record of the table; a field is undefined when its line has too few
    bars.  Texts are held as their UTF-8 bytes. *)
Record country : Type := mkCountry {
  flag : option string;
  code : option string;
  name : option string;
}.

#[global] Instance country_eq_dec : EqDecision country.
Proof. solve_decision. Defined.

(** The function mapped over the lines, lines 257 to 260: the first three
    pieces of the line split at its bars. *)
Definition parse_line (x : string) : country :=
  let pieces := split "|" x in
  mkCountry (pieces !! 0%nat) (pieces !! 1%nat) (pieces !! 2%nat).

(** The text split at its line feeds, each line parsed. *)
Definition parse (text : string) : list country :=
  parse_line <$> split LF text.

(** The line that stands for a record with its three fields. *)
Definition line_of (f c n : string) : string := f +:+ "|" +:+ c +:+ "|" +:+ n.

(** The fields of a record fit a line of the table: they hold no bar and no
    line feed. *)
Definition fits (r : string * string * string) : Prop :=
  occurs "|" r.1.1 = false ∧ occurs "|" r.1.2 = false ∧ occurs "|" r.2 = false ∧
  occurs LF r.1.1 = false ∧ occurs LF r.1.2 = false ∧ occurs LF r.2 = false.

Definition ALL : list country := parse
"🇦🇨|AC|Ascension Island
🇦🇩|AD|Andorra
🇦🇪|AE|United Arab Emirates
🇦🇫|AF|Afghanistan
🇦🇬|AG|Antigua & Barbuda
🇦🇮|AI|Anguilla
🇦🇱|AL|Albania
🇦🇲|AM|Armenia
🇦🇴|AO|Angola
🇦🇶|AQ|Antarctica
🇦🇷|AR|Argentina
🇦🇸|AS|American Samoa
🇦🇹|AT|Austria
🇦🇺|AU|Australia
🇦🇼|AW|Aruba
🇦🇽|AX|Åland Islands
🇦🇿|AZ|Azerbaijan
🇧🇦|BA|Bosnia & Herzegovina
🇧🇧|BB|Barbados
🇧🇩|BD|Bangladesh
🇧🇪|BE|Belgium
🇧🇫|BF|Burkina Faso
🇧🇬|BG|Bulgaria
🇧🇭|BH|Bahrain
🇧🇮|BI|Burundi
🇧🇯|BJ|Benin
🇧🇱|BL|St. Barthélemy
🇧🇲|BM|Bermuda
🇧🇳|BN|Brunei
🇧🇴|BO|Bolivia
🇧🇶|BQ|Caribbean Netherlands
🇧🇷|BR|Brazil
🇧🇸|BS|Bahamas
🇧🇹|BT|Bhutan
🇧🇻|BV|Bouvet Island
🇧🇼|BW|Botswana
🇧🇾|BY|Belarus
🇧🇿|BZ|Belize
🇨🇦|CA|Canada
🇨🇨|CC|Cocos (Keeling) Islands
🇨🇩|CD|Congo - Kinshasa
🇨🇫|CF|Central African Republic
🇨🇬|CG|Congo - Brazzaville
🇨🇭|CH|Switzerland
🇨🇮|CI|Côte d'Ivoire
🇨🇰|CK|Cook Islands
🇨🇱|CL|Chile
🇨🇲|CM|Cameroon
🇨🇳|CN|China
🇨🇴|CO|Colombia
🇨🇵|CP|Clipperton Island
🇨🇷|CR|Costa Rica
🇨🇺|CU|Cuba
🇨🇻|CV|Cape Verde
🇨🇼|CW|Curaçao
🇨🇽|CX|Christmas Island
🇨🇾|CY|Cyprus
🇨🇿|CZ|Czechia
🇩🇪|DE|Germany
🇩🇬|DG|Diego Garcia
🇩🇯|DJ|Djibouti
🇩🇰|DK|Denmark
🇩🇲|DM|Dominica
🇩🇴|DO|Dominican Republic
🇩🇿|DZ|Algeria
🇪🇦|EA|Ceuta & Melilla
🇪🇨|EC|Ecuador
🇪🇪|EE|Estonia
🇪🇬|EG|Egypt
🇪🇭|EH|Western Sahara
🇪🇷|ER|Eritrea
🇪🇸|ES|Spain
🇪🇹|ET|Ethiopia
🇫🇮|FI|Finland
🇫🇯|FJ|Fiji
🇫🇰|FK|Falkland Islands
🇫🇲|FM|Micronesia
🇫🇴|FO|Faroe Islands
🇫🇷|FR|France
🇬🇦|GA|Gabon
🇬🇧|GB|United Kingdom
🇬🇩|GD|Grenada
🇬🇪|GE|Georgia
🇬🇫|GF|French Guiana
🇬🇬|GG|Guernsey
🇬🇭|GH|Ghana
🇬🇮|GI|Gibraltar
🇬🇱|GL|Greenland
🇬🇲|GM|Gambia
🇬🇳|GN|Guinea
🇬🇵|GP|Guadeloupe
🇬🇶|GQ|Equatorial Guinea
🇬🇷|GR|Greece
🇬🇸|GS|South Georgia & South Sandwich Islands
🇬🇹|GT|Guatemala
🇬🇺|GU|Guam
🇬🇼|GW|Guinea-Bissau
🇬🇾|GY|Guyana
🇭🇰|HK|Hong Kong SAR China
🇭🇲|HM|Heard & McDonald Islands
🇭🇳|HN|Honduras
🇭🇷|HR|Croatia
🇭🇹|HT|Haiti
🇭🇺|HU|Hungary
🇮🇨|IC|Canary Islands
🇮🇩|ID|Indonesia
🇮🇪|IE|Ireland
🇮🇱|IL|Israel
🇮🇲|IM|Isle of Man
🇮🇳|IN|India
🇮🇴|IO|British Indian Ocean Territory
🇮🇶|IQ|Iraq
🇮🇷|IR|Iran
🇮🇸|IS|Iceland
🇮🇹|IT|Italy
🇯🇪|JE|Jersey
🇯🇲|JM|Jamaica
🇯🇴|JO|Jordan
🇯🇵|JP|Japan
🇰🇪|KE|Kenya
🇰🇬|KG|Kyrgyzstan
🇰🇭|KH|Cambodia
🇰🇮|KI|Kiribati
🇰🇲|KM|Comoros
🇰🇳|KN|St. Kitts & Nevis
🇰🇵|KP|North Korea
🇰🇷|KR|South Korea
🇰🇼|KW|Kuwait
🇰🇾|KY|Cayman Islands
🇰🇿|KZ|Kazakhstan
🇱🇦|LA|Laos
🇱🇧|LB|Lebanon
🇱🇨|LC|St. Lucia
🇱🇮|LI|Liechtenstein
🇱🇰|LK|Sri Lanka
🇱🇷|LR|Liberia
🇱🇸|LS|Lesotho
🇱🇹|LT|Lithuania
🇱🇺|LU|Luxembourg
🇱🇻|LV|Latvia
🇱🇾|LY|Libya
🇲🇦|MA|Morocco
🇲🇨|MC|Monaco
🇲🇩|MD|Moldova
🇲🇪|ME|Montenegro
🇲🇫|MF|St. Martin
🇲🇬|MG|Madagascar
🇲🇭|MH|Marshall Islands
🇲🇰|MK|North Macedonia
🇲🇱|ML|Mali
🇲🇲|MM|Myanmar (Burma)
🇲🇳|MN|Mongolia
🇲🇴|MO|Macao SAR China
🇲🇵|MP|Northern Mariana Islands
🇲🇶|MQ|Martinique
🇲🇷|MR|Mauritania
🇲🇸|MS|Montserrat
🇲🇹|MT|Malta
🇲🇺|MU|Mauritius
🇲🇻|MV|Maldives
🇲🇼|MW|Malawi
🇲🇽|MX|Mexico
🇲🇾|MY|Malaysia
🇲🇿|MZ|Mozambique
🇳🇦|NA|Namibia
🇳🇨|NC|New Caledonia
🇳🇪|NE|Niger
🇳🇫|NF|Norfolk Island
🇳🇬|NG|Nigeria
🇳🇮|NI|Nicaragua
🇳🇱|NL|Netherlands
🇳🇴|NO|Norway
🇳🇵|NP|Nepal
🇳🇷|NR|Nauru
🇳🇺|NU|Niue
🇳🇿|NZ|New Zealand
🇴🇲|OM|Oman
🇵🇦|PA|Panama
🇵🇪|PE|Peru
🇵🇫|PF|French Polynesia
🇵🇬|PG|Papua New Guinea
🇵🇭|PH|Philippines
🇵🇰|PK|Pakistan
🇵🇱|PL|Poland
🇵🇲|PM|St. Pierre & Miquelon
🇵🇳|PN|Pitcairn Islands
🇵🇷|PR|Puerto Rico
🇵🇸|PS|Palestinian Territories
🇵🇹|PT|Portugal
🇵🇼|PW|Palau
🇵🇾|PY|Paraguay
🇶🇦|QA|Qatar
🇷🇪|RE|Réunion
🇷🇴|RO|Romania
🇷🇸|RS|Serbia
🇷🇺|RU|Russia
🇷🇼|RW|Rwanda
🇸🇦|SA|Saudi Arabia
🇸🇧|SB|Solomon Islands
🇸🇨|SC|Seychelles
🇸🇩|SD|Sudan
🇸🇪|SE|Sweden
🇸🇬|SG|Singapore
🇸🇭|SH|St. Helena
🇸🇮|SI|Slovenia
🇸🇯|SJ|Svalbard & Jan Mayen
🇸🇰|SK|Slovakia
🇸🇱|SL|Sierra Leone
🇸🇲|SM|San Marino
🇸🇳|SN|Senegal
🇸🇴|SO|Somalia
🇸🇷|SR|Suriname
🇸🇸|SS|South Sudan
🇸🇹|ST|São Tomé & Príncipe
🇸🇻|SV|El Salvador
🇸🇽|SX|Sint Maarten
🇸🇾|SY|Syria
🇸🇿|SZ|Eswatini
🇹🇦|TA|Tristan da Cunha
🇹🇨|TC|Turks & Caicos Islands
🇹🇩|TD|Chad
🇹🇫|TF|French Southern Territories
🇹🇬|TG|Togo
🇹🇭|TH|Thailand
🇹🇯|TJ|Tajikistan
🇹🇰|TK|Tokelau
🇹🇱|TL|Timor-Leste
🇹🇲|TM|Turkmenistan
🇹🇳|TN|Tunisia
🇹🇴|TO|Tonga
🇹🇷|TR|Türkiye
🇹🇹|TT|Trinidad & Tobago
🇹🇻|TV|Tuvalu
🇹🇼|TW|Taiwan
🇹🇿|TZ|Tanzania
🇺🇦|UA|Ukraine
🇺🇬|UG|Uganda
🇺🇲|UM|U.S. Outlying Islands
🇺🇳|UN|United Nations
🇺🇸|US|United States
🇺🇾|UY|Uruguay
🇺🇿|UZ|Uzbekistan
🇻🇦|VA|Vatican City
🇻🇨|VC|St. Vincent & Grenadines
🇻🇪|VE|Venezuela
🇻🇬|VG|British Virgin Islands
🇻🇮|VI|U.S. Virgin Islands
🇻🇳|VN|Vietnam
🇻🇺|VU|Vanuatu
🇼🇫|WF|Wallis & Futuna
🇼🇸|WS|Samoa
🇽🇰|XK|Kosovo
🇾🇪|YE|Yemen
🇾🇹|YT|Mayotte
🇿🇦|ZA|South Africa
🇿🇲|ZM|Zambia
🇿🇼|ZW|Zimbabwe".

(** [_.find(COUNTRIES, { code })], as the [Country] component of the admin
    panel calls it: the first record with that code. *)
Fixpoint find_code (c : string) (l : list country) : option country :=
  match l with
  | [] => None
  | r :: rest => if bool_decide (code r = Some c) then Some r else find_code c rest
  end.

(** [code && _.find(COUNTRIES, { code })]: an empty code finds nothing. *)
Definition country_of (c : string) : option country :=
  if truthy (Some c) then find_code c ALL else None.

(** [WITH_IP]: the [+] of the string literals and, last, of the array that
    the split at commas makes of the last literal alone, the call binding
    tighter than [+]. *)
Definition WITH_IP : string :=
  ((((("AD,AE,AF,AG,AI,AL,AM,AO,AQ,AR,AS,AT,AU,AW,AX,AZ,BA,BB,BD,BE,BF,BG,BH,BI,BJ,BL,BM,BN,BO,BQ,BR," +:+
   "BS,BT,BV,BW,BY,BZ,CA,CD,CF,CG,CH,CI,CK,CL,CM,CN,CO,CR,CU,CV,CW,CY,CZ,DE,DJ,DK,DM,DO,DZ,EC,EE,EG,ER,ES,ET,FI,FJ,FK,") +:+
   "FM,FO,FR,GA,GB,GD,GE,GF,GG,GH,GI,GL,GM,GN,GP,GQ,GR,GT,GU,GW,GY,HK,HN,HR,HT,HU,ID,IE,IL,IM,IN,IO,IQ,IR,IS,IT,JE,JM,") +:+
   "JO,JP,KE,KG,KH,KI,KM,KN,KP,KR,KW,KY,KZ,LA,LB,LC,LI,LK,LR,LS,LT,LU,LV,LY,MA,MC,MD,ME,MF,MG,MH,MK,ML,MM,MN,MO,MP,MQ,") +:+
   "MR,MS,MT,MU,MV,MW,MX,MY,MZ,NA,NC,NE,NF,NG,NI,NL,NO,NP,NR,NU,NZ,OM,PA,PE,PF,PG,PH,PK,PL,PM,PR,PS,PT,PW,PY,QA,RE,RO,") +:+
   "RS,RU,RW,SA,SB,SC,SD,SE,SG,SI,SK,SL,SM,SN,SO,SR,SS,ST,SV,SX,SY,SZ,TC,TD,TG,TH,TJ,TK,TL,TM,TN,TO,TR,TT,TV,TW,TZ,UA,") +:+
  join "," (split ","
   "UG,UM,US,UY,UZ,VA,VC,VE,VG,VI,VN,VU,WF,WS,YE,YT,ZA,ZM,ZW").

End Countries.

(** * More of the code: the NAT helper (the second part of src/auth.ts) *)

Module Upnp.

(** The values that [internalPort] and the [external] parameter range over:
    undefined, a boolean or a port number. *)
Inductive value : Type :=
| Undefined
| Bool (b : bool)
| Num (n : Z).

#[global] Instance value_eq_dec : EqDecision value.
Proof. solve_decision. Defined.

Definition truthy_value (v : value) : bool :=
  match v with
  | Undefined => false
  | Bool b => b
  | Num n => negb (bool_decide (n = 0%Z))
  end.

(** [a || b]. *)
Definition or_value (a b : value) : value := if truthy_value a then a else b.

(** One of the two servers in what [getServerStatus] resolves to. *)
Record Server : Type := mkServer {
  listening : bool;
  port : Z;
}.

Record ServerStatus : Type := mkStatus {
  https : option Server;
  http : option Server;
}.

(** [x.private] and [x.public] of a port mapping. *)
Record Endpoint : Type := mkEndpoint {
  host : string;
  endpoint_port : Z;
}.

Record Mapping : Type := mkMapping {
  private : Endpoint;
  public : Endpoint;
  description : string;
}.

#[global] Instance Endpoint_eq_dec : EqDecision Endpoint.
Proof. solve_decision. Defined.

#[global] Instance Mapping_eq_dec : EqDecision Mapping.
Proof. solve_decision. Defined.

(** What [client.getGateway()] resolves to: [res.address], and the host name
    of the URL [res.gateway.description]. *)
Record Gateway : Type := mkGateway {
  address : option string;
  gateway_hostname : string;
}.

(** The answers to the calls that [getNatInfo] awaits, in the order of the
    code; an answer is absent where the code puts null for a rejection, or
    where the call gives none. *)
Record Probes : Type := mkProbes {
  probe_gateway : option Gateway;
  probe_status : option ServerStatus;
  probe_mappings : option (list Mapping);
  probe_upnp_ip : option string;
  probe_public_ip : option string;
  probe_route : option string;
  probe_ips : list string;
}.

Record NatInfo : Type := mkNatInfo {
  upnp : bool;
  localIp : option string;
  gatewayIp : option string;
  publicIp : option string;
  externalIp : option string;
  mapped : option Mapping;
  mappings : option (list Mapping);
  internalPort : value;
  externalPort : option Z;
}.

(** [server?.listening && server.port]. *)
Definition listening_port (server : option Server) : value :=
  match server with
  | None => Undefined
  | Some sv => if listening sv then Num (port sv) else Bool false
  end.

(** Line 77. *)
Definition internal_port (status : option ServerStatus) : value :=
  or_value (listening_port (status ≫= https)) (listening_port (status ≫= http)).

(** The predicate of line 78. *)
Definition is_mapped (local : option string) (internal : value) (x : Mapping) : bool :=
  bool_decide (Some (host (private x)) = local)
  && bool_decide (Num (endpoint_port (private x)) = internal)
  || bool_decide (description x = "hfs").

(** [_.find(array, predicate)]; on null it finds nothing. *)
Fixpoint find {T : Type} (p : T → bool) (l : list T) : option T :=
  match l with
  | [] => None
  | x :: rest => if p x then Some x else find p rest
  end.

(** [a || b] on texts that may be absent. *)
Definition or_text (a b : option string) : option string :=
  if truthy a then a else b.

(** [getNatInfo], lines 68 to 91, from the answers to its calls. *)
Definition getNatInfo (q : Probes) : NatInfo :=
  let res := probe_gateway q in
  let status := probe_status q in
  let mappings := match res with Some _ => probe_mappings q | None => None end in
  let externalIp := match res with Some _ => probe_upnp_ip q | None => None end in
  let publicIp := or_text (probe_public_ip q) externalIp in
  let gatewayIp := match res with
                   | Some g => Some (gateway_hostname g)
                   | None => probe_route q
                   end in
  let localIp := or_text (res ≫= address) (probe_ips q !! 0%nat) in
  let internalPort := internal_port status in
  let mapped := find (is_mapped localIp internalPort) (default [] mappings) in
  mkNatInfo (bool_decide (is_Some res)) localIp gatewayIp publicIp externalIp
            mapped mappings internalPort
            (endpoint_port <$> (public <$> mapped)).

(** What is asked of the router. *)
Inductive request : Type :=
| RemoveMapping (private_port public_port : Z)
| CreateMapping (private_port public_port : value).

(** How a call fails. *)
Inductive failure : Type :=
| ApiError (status : Z) (message : string)
| RouterError (reason : string)
| AggregateError.

Section Handlers.
(** The constant of [./const], and [String.prototype.trim]. *)
Variable HTTP_SERVICE_UNAVAILABLE : Z.
Variable trim : string → string.

(** [map_port({ external })], lines 119 to 129, from what [getNatInfo] gave
    and from how the router answers each request: the failure it throws, if
    any, and the requests it has sent. *)
Definition map_port (info : NatInfo) (external : value)
    (router : request → option failure) : option failure * list request :=
  if negb (truthy (gatewayIp info))
  then (Some (ApiError HTTP_SERVICE_UNAVAILABLE "upnp failed"), [])
  else
    let removal :=
      match mapped info with
      | Some m => [RemoveMapping (endpoint_port (private m)) (endpoint_port (public m))]
      | None => []
      end in
    match head (omap router removal) with
    | Some f => (Some f, removal)
    | None =>
        if truthy_value external
        then (router (CreateMapping (internalPort info) external),
              (removal ++ [CreateMapping (internalPort info) external])%list)
        else (None, removal)
    end.

(** [_.chunk(array, 2)]. *)
Fixpoint chunk2 {T : Type} (l : list T) : list (list T) :=
  match l with
  | [] => []
  | x :: rest =>
      match rest with
      | [] => [[x]]
      | y :: rest' => [x; y] :: chunk2 rest'
      end
  end.

(** The promises of a list that fulfil, with their values; [Promise.any]
    resolves with one of them, and rejects when there is none. *)
Definition fulfilled {T : Type} (l : list (option T)) : list T := omap id l.

(** Whether a character is in the class of line 99. *)
Definition ip_char (c : ascii) : bool :=
  let n := nat_of_ascii c in
  bool_decide (n = 46)%nat || bool_decide (n = 58)%nat
  || bool_decide (48 ≤ n ≤ 57)%nat || bool_decide (97 ≤ n ≤ 102)%nat
  || bool_decide (65 ≤ n ≤ 70)%nat.

Fixpoint some_char (p : ascii → bool) (s : string) : bool :=
  match s with
  | EmptyString => false
  | String c rest => p c || some_char p rest
  end.

(** The test of line 99 on [ip]; an undefined [ip] is tested as the text
    undefined. *)
Definition looks_like_ip (ip : option string) : bool :=
  some_char ip_char (default "undefined" ip).

(** The promise made for one url on lines 97 to 102, from what [httpsString]
    gives: nothing when it rejects, or a response with or without a body.
    The promise fulfils with [ip]. *)
Definition public_ip_answer (response : option (option string))
    : option (option string) :=
  match response with
  | None => None
  | Some body =>
      let ip := trim <$> body in
      if looks_like_ip ip then Some ip else None
  end.

(** The loop of [getPublicIp], lines 95 to 104, on the pairs of services:
    what it can return. *)
Fixpoint public_ip_of (chunks : list (list (option (option string))))
    : list (option string) :=
  match chunks with
  | [] => [None]
  | urls :: rest =>
      match fulfilled (public_ip_answer <$> urls) with
      | [] => public_ip_of rest
      | ip :: ips => ip :: ips
      end
  end.

(** How a call of [getPublicIp] ends: it rejects, or it returns [ip]. *)
Inductive ip_ending : Type :=
| Threw (e : failure)
| Gave (ip : option string).

(** [getPublicIp], lines 93 to 105, from what [getProjectInfo] gives on line
    94, outside the [try]: a rejection, or the services, which are taken in
    the order the shuffle left them, each with the answer of [httpsString]. *)
Definition getPublicIp (project : failure + list (option (option string)))
    : list ip_ending :=
  match project with
  | inl e => [Threw e]
  | inr services => Gave <$> public_ip_of (chunk2 services)
  end.

(** A port-scanner service as [check_server] meets it: its host name, the
    text its answer yields under the selector (nothing when the request
    rejects, undefined when the selector finds nothing), and the two regular
    expressions as tests. *)
Record Service : Type := mkService {
  service : string;
  parsed : option (option string);
  regexpSuccess : string → bool;
  regexpFailure : string → bool;
}.

(** The promise made for one service on lines 148 to 161. *)
Definition service_answer (svc : Service) : option (bool * string) :=
  match parsed svc with
  | None => None
  | Some text =>
      if negb (truthy text) then None
      else
        let success := regexpSuccess svc (default "" text) in
        let failure := regexpFailure svc (default "" text) in
        if bool_decide (success = failure) then None
        else Some (success, service svc)
  end.

(** How a call of [check_server] ends: it returns an error object, resolves
    with a verdict, or rejects. *)
Inductive ending : Type :=
| Returns (e : failure)
| Resolves (success : bool) (service : string)
| Rejects (e : failure).

(** [check_server], lines 131 to 166, on the services in the order the
    shuffle left them: how it can end. *)
Definition check_server (info : NatInfo) (services : list Service) : list ending :=
  if negb (truthy (publicIp info))
  then [Returns (ApiError HTTP_SERVICE_UNAVAILABLE "cannot detect public ip")]
  else
    match chunk2 services with
    | [] => [Returns (ApiError HTTP_SERVICE_UNAVAILABLE
                        "no service available to detect upnp mapping")]
    | first :: _ =>
        match fulfilled (service_answer <$> first) with
        | [] => [Rejects AggregateError]
        | answers => (λ a, Resolves a.1 a.2) <$> answers
        end
    end.

End Handlers.

End Upnp.

(** Sample answers of a router and of the services, on which the statements
    about the NAT helper are exercised. *)
Module Samples.
Import Upnp.

Definition status : ServerStatus :=
  mkStatus (Some (mkServer false 443)) (Some (mkServer true 8080)).

Definition mine : Mapping :=
  mkMapping (mkEndpoint "192.168.1.5" 8080) (mkEndpoint "" 80) "web".

Definition other : Mapping :=
  mkMapping (mkEndpoint "192.168.1.9" 22) (mkEndpoint "" 2222) "ssh".

Definition stale : Mapping :=
  mkMapping (mkEndpoint "192.168.1.7" 9000) (mkEndpoint "" 9001) "hfs".

Definition probes : Probes :=
  mkProbes (Some (mkGateway (Some "192.168.1.5") "192.168.1.1")) (Some status)
           (Some [other; mine; stale]) (Some "203.0.113.7") None None
           ["10.0.0.2"].

Definition offline : Probes :=
  mkProbes None (Some status) (Some [mine]) (Some "203.0.113.7") None
           (Some "192.168.1.254") ["10.0.0.2"].

(** A router that refuses every removal. *)
Definition refusing (r : request) : option failure :=
  match r with
  | RemoveMapping _ _ => Some (RouterError "refused")
  | CreateMapping _ _ => None
  end.

Definition accepting (r : request) : option failure := None.

Definition contains_open (text : string) : bool :=
  bool_decide (text = "open").

Definition contains_closed (text : string) : bool :=
  bool_decide (text = "closed").

Definition silent : Service :=
  mkService "silent.example" None contains_open contains_closed.

Definition vague : Service :=
  mkService "vague.example" (Some (Some "maybe")) contains_open contains_closed.

Definition clear : Service :=
  mkService "clear.example" (Some (Some "open")) contains_open contains_closed.

End Samples.

(** * Properties *)

Section Properties.
Context {store : Perm} {node : Platform} {lib : Srp6a}.

(** ** Session manager *)

Lemma js_or_empty (v : option string) : js_or v "" = default "" v.
Proof.
  destruct v as [s|]; [|reflexivity]. simpl.
  case_bool_decide; simpl; congruence.
Qed.

Lemma getCurrentUsername_read (ctx : Context) :
  getCurrentUsername ctx = default "" (username <$> state_account ctx).
Proof. unfold getCurrentUsername. apply js_or_empty. Qed.

Lemma setLoggedIn_false (ctx : Context) (s : Session) (inv : gset string) :
  session ctx = Some s →
  setLoggedIn ctx None inv
  = (Ok (), mkContext (Some (mkSession None)) (state_account ctx), inv).
Proof. intros Hs. unfold setLoggedIn. rewrite Hs. reflexivity. Qed.

Lemma setLoggedIn_name (ctx : Context) (s : Session) (u : string) (inv : gset string) :
  session ctx = Some s →
  setLoggedIn ctx (Some u) inv
  = (Ok (),
     mkContext (Some (mkSession (Some (normalizeUsername u)))) (getAccount u),
     inv ∖ {[ u ]}).
Proof. intros Hs. unfold setLoggedIn. rewrite Hs. reflexivity. Qed.

(** C6.  With a session on the context, [setLoggedIn(ctx, u)] resolves, [u] is
    no longer in [invalidSessions] (so [isInvalidated u] is false right after
    the login), the session's [username] is [normalizeUsername u], and
    [ctx.state.account] is the account that [getAccount u] resolves. *)
Theorem setLoggedIn_binds_identity (ctx : Context) (s : Session) (u : string)
    (inv : gset string) :
  session ctx = Some s →
  (setLoggedIn ctx (Some u) inv).1.1 = Ok () ∧
  (u ∉ (setLoggedIn ctx (Some u) inv).2) ∧
  isInvalidated u (setLoggedIn ctx (Some u) inv).2 = false ∧
  session (setLoggedIn ctx (Some u) inv).1.2
    = Some (mkSession (Some (normalizeUsername u))) ∧
  state_account (setLoggedIn ctx (Some u) inv).1.2 = getAccount u.
Proof.
  intros Hs. rewrite (setLoggedIn_name ctx s u inv Hs). simpl.
  assert (Hout : u ∉ inv ∖ {[ u ]}).
  { rewrite elem_of_difference, elem_of_singleton. tauto. }
  repeat split; try done.
  unfold isInvalidated. by rewrite bool_decide_eq_false.
Qed.

(** C7, as amended.  With a session on the context, [setLoggedIn(ctx, false)]
    resolves, leaves the session without a [username] and leaves
    [ctx.state.account] and [invalidSessions] as they were.
    [getCurrentUsername] is a total read of [ctx.state.account]: it is the
    empty string when no account is attached.  So after the logout it returns
    what it returned before, which is empty when no account was attached. *)
Theorem logout_clears_session_only (ctx : Context) (s : Session)
    (inv : gset string) :
  session ctx = Some s →
  (setLoggedIn ctx None inv).1.1 = Ok () ∧
  session (setLoggedIn ctx None inv).1.2 = Some (mkSession None) ∧
  state_account (setLoggedIn ctx None inv).1.2 = state_account ctx ∧
  (setLoggedIn ctx None inv).2 = inv ∧
  getCurrentUsername (setLoggedIn ctx None inv).1.2 = getCurrentUsername ctx ∧
  (state_account ctx = None →
   getCurrentUsername (setLoggedIn ctx None inv).1.2 = "") ∧
  (∀ c : Context, state_account c = None → getCurrentUsername c = "") ∧
  (∀ c : Context, getCurrentUsername c = default "" (username <$> state_account c)).
Proof.
  intros Hs. rewrite (setLoggedIn_false ctx s inv Hs). simpl.
  repeat split; try done.
  - intros Hnone. unfold getCurrentUsername. simpl. by rewrite Hnone.
  - intros c Hnone. unfold getCurrentUsername. by rewrite Hnone.
  - apply getCurrentUsername_read.
Qed.

(** C8.  Without a session on the context, [setLoggedIn] rejects with the
    http error of status [HTTP_SERVER_ERROR], a status of the 5xx class, for a
    login and for a logout alike, and neither the context nor
    [invalidSessions] changes. *)
Theorem setLoggedIn_without_session (ctx : Context) (u : option string)
    (inv : gset string) :
  session ctx = None →
  setLoggedIn ctx u inv = (Throw (HttpError HTTP_SERVER_ERROR "session"), ctx, inv) ∧
  (500 ≤ HTTP_SERVER_ERROR < 600)%Z.
Proof.
  intros Hs. unfold setLoggedIn. rewrite Hs. split; [reflexivity|].
  unfold HTTP_SERVER_ERROR. lia.
Qed.

(** C9, as amended.  With a session on the context, a logout resolves, a
    second logout right after it resolves too and changes nothing; on a
    session that has no [username] already the first logout changes nothing
    either.  [getCurrentUsername] returns after them what it returned before:
    the empty string when no account is attached to the context. *)
Theorem logout_idempotent (ctx : Context) (s : Session) (inv : gset string) :
  session ctx = Some s →
  let once := setLoggedIn ctx None inv in
  let twice := setLoggedIn once.1.2 None once.2 in
  once.1.1 = Ok () ∧
  twice = once ∧
  (session_username s = None → once = (Ok (), ctx, inv)) ∧
  getCurrentUsername twice.1.2 = getCurrentUsername ctx ∧
  (state_account ctx = None → getCurrentUsername twice.1.2 = "").
Proof.
  intros Hs once twice. subst twice once.
  rewrite (setLoggedIn_false ctx s inv Hs). simpl.
  unfold setLoggedIn. simpl.
  repeat split; try done.
  - intros Hanon. destruct ctx as [se acc], s as [name]. simpl in *. by subst.
  - intros Hnone. unfold getCurrentUsername. simpl. by rewrite Hnone.
Qed.

(** C10.  A login removes from [invalidSessions] the literal [u] and nothing
    else, while the session stores [normalizeUsername u]: every other name is
    in the set afterwards exactly when it was before, in particular the
    normalized form of [u] when it differs from [u]. *)
Theorem setLoggedIn_deletes_literal_name (ctx : Context) (s : Session)
    (u : string) (inv : gset string) :
  session ctx = Some s →
  (setLoggedIn ctx (Some u) inv).2 = inv ∖ {[ u ]} ∧
  session (setLoggedIn ctx (Some u) inv).1.2
    = Some (mkSession (Some (normalizeUsername u))) ∧
  (∀ v : string, v ≠ u → v ∈ (setLoggedIn ctx (Some u) inv).2 ↔ v ∈ inv) ∧
  (normalizeUsername u ≠ u → normalizeUsername u ∈ inv →
   normalizeUsername u ∈ (setLoggedIn ctx (Some u) inv).2).
Proof.
  intros Hs. rewrite (setLoggedIn_name ctx s u inv Hs). simpl.
  split; [done|]. split; [done|]. split.
  - intros v Hv. rewrite elem_of_difference, elem_of_singleton. tauto.
  - intros Hne Hin. rewrite elem_of_difference, elem_of_singleton. tauto.
Qed.

(** ** SRP engine *)

Lemma srpStep1_Ok_truthy (account : Account) :
  is_Ok (srpStep1 account) = true → truthy (srp account) = true.
Proof.
  unfold srpStep1. destruct (truthy (srp account)); simpl; [done|discriminate].
Qed.

(** C3, as amended.  [srpStep1] throws [HTTP_NOT_ACCEPTABLE] when
    [account.srp] is absent (or empty), throws [Error("malformed account")]
    when the salt or the verifier component is missing or empty, and, when
    both are there, throws the [SyntaxError] of the first [BigInt] conversion
    that refuses its text; on none of these accounts does it resolve. *)
Theorem srpStep1_failures (account : Account) :
  (truthy (srp account) = false →
   srpStep1 account = Throw (ThrowStatus HTTP_NOT_ACCEPTABLE)) ∧
  (∀ s : string, srp account = Some s → s ≠ "" →
   truthy (split "|" s !! 0%nat) = false ∨ truthy (split "|" s !! 1%nat) = false →
   srpStep1 account = Throw (Error "malformed account")) ∧
  (∀ s salt verifier : string, srp account = Some s →
   split "|" s !! 0%nat = Some salt → split "|" s !! 1%nat = Some verifier →
   salt ≠ "" → verifier ≠ "" →
   (BigInt salt = None → srpStep1 account = Throw (SyntaxError salt)) ∧
   (is_Some (BigInt salt) → BigInt verifier = None →
    srpStep1 account = Throw (SyntaxError verifier))) ∧
  (is_Ok (srpStep1 account) = true →
   ∃ s salt verifier : string, srp account = Some s ∧
     split "|" s !! 0%nat = Some salt ∧ split "|" s !! 1%nat = Some verifier ∧
     salt ≠ "" ∧ verifier ≠ "" ∧
     is_Some (BigInt salt) ∧ is_Some (BigInt verifier)).
Proof.
  unfold srpStep1. split; [|split; [|split]].
  - intros ->. reflexivity.
  - intros s -> Hs Hmiss. simpl. rewrite bool_decide_eq_false_2 by done. simpl.
    destruct Hmiss as [-> | ->]; simpl; [reflexivity|].
    by rewrite orb_true_r.
  - intros s salt verifier -> Hsalt Hver Hs0 Hs1. simpl.
    assert (Hs : s ≠ "").
    { intros ->. simpl in Hver. discriminate. }
    rewrite bool_decide_eq_false_2 by done. simpl.
    rewrite Hsalt, Hver. simpl.
    rewrite !bool_decide_eq_false_2 by done. simpl. split.
    + intros ->. reflexivity.
    + intros [z ->] ->. reflexivity.
  - destruct (srp account) as [s|] eqn:Hsrp; simpl; [|discriminate].
    case_bool_decide as Hs; simpl; [discriminate|].
    destruct (split "|" s !! 0%nat) as [salt|] eqn:Hsalt; simpl; [|discriminate].
    case_bool_decide as Hs0; simpl; [discriminate|].
    destruct (split "|" s !! 1%nat) as [verifier|] eqn:Hver; simpl; [|discriminate].
    case_bool_decide as Hs1; simpl; [discriminate|].
    destruct (BigInt salt) as [zs|] eqn:Hzs; simpl; [|discriminate].
    destruct (BigInt verifier) as [zv|] eqn:Hzv; simpl; [|discriminate].
    intros _. exists s, salt, verifier. rewrite Hzs, Hzv. by eauto 10.
Qed.

(** ** Verification cache *)

Lemma truthy_Some (s : string) : truthy (Some s) = true ↔ s ≠ "".
Proof.
  simpl. case_bool_decide; simpl; split; intros; congruence.
Qed.

(** A call that finds no entry under its key invokes the creator and stores
    the new promise. *)
Lemma srpCheck_call_miss (u p : string) (σ : State) (account : Account) :
  getAccount u = Some account → truthy (srp account) = true → p ≠ "" →
  cache σ !! fingerprint u p account = None →
  srpCheck_call u p σ
  = (Await (length (promises σ)) account,
     mkState (<[fingerprint u p account := length (promises σ)]> (cache σ))
       (promises σ ++ [Pending u p account (fingerprint u p account)])
       (timers σ) (now σ) (S (handshakes σ))).
Proof.
  intros Hacc Hsrp Hp Hmiss. unfold srpCheck_call. rewrite Hacc, Hsrp.
  apply truthy_Some in Hp. rewrite Hp. simpl negb. simpl orb. cbv iota.
  unfold getOrSet. rewrite Hmiss. reflexivity.
Qed.

(** A call that finds an entry under its key joins it and changes nothing. *)
Lemma srpCheck_call_hit (u p : string) (σ : State) (account : Account) (pid : nat) :
  getAccount u = Some account → truthy (srp account) = true → p ≠ "" →
  cache σ !! fingerprint u p account = Some pid →
  srpCheck_call u p σ = (Await pid account, σ).
Proof.
  intros Hacc Hsrp Hp Hhit. unfold srpCheck_call. rewrite Hacc, Hsrp.
  apply truthy_Some in Hp. rewrite Hp. simpl negb. simpl orb. cbv iota.
  unfold getOrSet. rewrite Hhit. reflexivity.
Qed.

(** C5.  When no account exists for [username], or the account has no SRP
    material, or [password] is empty, [srpCheck] returns undefined before it
    computes a key: the cache, the promises and the timers are what they
    were, and no handshake has started. *)
Theorem srpCheck_returns_early (u p : string) (σ : State) :
  getAccount u = None ∨
  (∃ account : Account, getAccount u = Some account ∧ truthy (srp account) = false) ∨
  p = "" →
  srpCheck_call u p σ = (Returned None, σ) ∧
  srpCheck u p σ = (Some (Ok None), σ).
Proof.
  intros Hcase.
  assert (Hcall : srpCheck_call u p σ = (Returned None, σ)).
  { unfold srpCheck_call.
    destruct Hcase as [-> | [(account & -> & ->) | ->]]; [done|done|].
    destruct (getAccount u) as [account|]; [|done].
    simpl. by rewrite orb_true_r. }
  split; [done|]. unfold srpCheck. rewrite Hcall. reflexivity.
Qed.

(** What running the creator gives: the verdict of the exchange as 1 or 0 and
    one more timer, or the throw of [srpStep1] or of the client part and no
    timer. *)
Lemma creator_run (u p : string) (account : Account) (k : string) (σ : State) :
  creator u p account k σ
  = match exchange u p account with
    | Ok b =>
        (Ok (if b then 1%Z else 0%Z),
         mkState (cache σ) (promises σ) (timers σ ++ [((now σ + 60000)%Z, k)])
                 (now σ) (handshakes σ))
    | Throw e => (Throw e, σ)
    end.
Proof.
  unfold creator, exchange, bind, await, ret, setTimeout_delete.
  destruct (srpStep1 account) as [[[st salt] pubKey]|e]; simpl; [|done].
  destruct (srpClientPart u p salt pubKey) as [client|e]; simpl; done.
Qed.

Lemma settle_pending (pid : nat) (σ : State) (u p : string) (account : Account)
    (k : string) :
  promises σ !! pid = Some (Pending u p account k) →
  settle pid σ
  = match exchange u p account with
    | Ok b =>
        mkState (cache σ) (<[pid := Settled (Ok (if b then 1%Z else 0%Z))]> (promises σ))
                (timers σ ++ [((now σ + 60000)%Z, k)]) (now σ) (handshakes σ)
    | Throw e =>
        mkState (cache σ) (<[pid := Settled (Throw e)]> (promises σ))
                (timers σ) (now σ) (handshakes σ)
    end.
Proof.
  intros Hp. unfold settle. rewrite Hp, creator_run.
  destruct (exchange u p account) as [b|e]; reflexivity.
Qed.

Lemma settle_settled (pid : nat) (σ : State) (good : res Z) :
  promises σ !! pid = Some (Settled good) → settle pid σ = σ.
Proof. intros Hp. unfold settle. by rewrite Hp. Qed.

Lemma exchange_Ok_truthy (u p : string) (account : Account) (b : bool) :
  exchange u p account = Ok b → truthy (srp account) = true.
Proof.
  intros Hx. apply srpStep1_Ok_truthy. unfold exchange in Hx.
  destruct (srpStep1 account); [done|discriminate].
Qed.

(** One call run to its end on a cache with no entry under its key: the
    caller gets the exchange's verdict, and the entry stays behind, settled. *)
Lemma srpCheck_fresh (u p : string) (σ : State) (account : Account) :
  getAccount u = Some account → truthy (srp account) = true → p ≠ "" →
  cache σ !! fingerprint u p account = None →
  (srpCheck u p σ).1
    = Some (srpCheck_return account (settled_with (exchange u p account))) ∧
  cache (srpCheck u p σ).2 !! fingerprint u p account = Some (length (promises σ)) ∧
  promises (srpCheck u p σ).2 !! length (promises σ)
    = Some (Settled (settled_with (exchange u p account))).
Proof.
  intros Hacc Hsrp Hp Hmiss. unfold srpCheck.
  rewrite (srpCheck_call_miss u p σ account Hacc Hsrp Hp Hmiss).
  set (k := fingerprint u p account). set (n := length (promises σ)).
  erewrite settle_pending; [|simpl; by apply list_lookup_middle].
  assert (Hn : (n < length (promises σ ++ [Pending u p account k]))%nat).
  { rewrite length_app. simpl. subst n. lia. }
  destruct (exchange u p account) as [b|e]; simpl;
    rewrite list_lookup_insert_eq by done; simpl;
    rewrite lookup_insert_eq; done.
Qed.

(** A second identical call, run on the state the first one left, joins the
    settled entry and gets the same result. *)
Lemma srpCheck_again (u p : string) (σ : State) (account : Account) (pid : nat)
    (good : res Z) :
  getAccount u = Some account → truthy (srp account) = true → p ≠ "" →
  cache σ !! fingerprint u p account = Some pid →
  promises σ !! pid = Some (Settled good) →
  srpCheck u p σ = (Some (srpCheck_return account good), σ).
Proof.
  intros Hacc Hsrp Hp Hhit Hset. unfold srpCheck.
  rewrite (srpCheck_call_hit u p σ account pid Hacc Hsrp Hp Hhit).
  rewrite (settle_settled pid σ good Hset). simpl. by rewrite Hset.
Qed.

(** ** Simultaneous calls *)

Lemma simultaneous_hits (n : nat) (u p : string) (σ : State) (account : Account)
    (pid : nat) :
  getAccount u = Some account → truthy (srp account) = true → p ≠ "" →
  cache σ !! fingerprint u p account = Some pid →
  simultaneous n u p σ = (replicate n (Await pid account), σ).
Proof.
  intros Hacc Hsrp Hp Hhit. induction n as [|n IH]; [reflexivity|].
  simpl. rewrite (srpCheck_call_hit u p σ account pid Hacc Hsrp Hp Hhit).
  by rewrite IH.
Qed.

(** Whatever the state, simultaneous identical calls stand at the same point:
    they start at most one handshake between them. *)
Lemma simultaneous_calls_agree (n : nat) (u p : string) (σ : State) :
  (handshakes (simultaneous n u p σ).2 ≤ S (handshakes σ))%nat ∧
  ∀ w1 w2 : awaiting,
    w1 ∈ (simultaneous n u p σ).1 → w2 ∈ (simultaneous n u p σ).1 → w1 = w2.
Proof.
  assert (Hsame : ∀ (w : awaiting) (m : nat) (w1 w2 : awaiting),
            w1 ∈ w :: replicate m w → w2 ∈ w :: replicate m w → w1 = w2).
  { intros w m w1 w2 Hw1 Hw2.
    assert (Hw : ∀ x : awaiting, x ∈ w :: replicate m w → x = w).
    { intros x [->|Hx]%elem_of_cons; [done|]. by apply elem_of_replicate_inv in Hx. }
    by rewrite (Hw w1 Hw1), (Hw w2 Hw2). }
  destruct n as [|n].
  { simpl. split; [lia|]. intros w1 w2 Hw1. by apply elem_of_nil in Hw1. }
  destruct (getAccount u) as [account|] eqn:Hacc.
  - destruct (truthy (srp account)) eqn:Hsrp.
    + destruct (decide (p = "")) as [->|Hp].
      * assert (Hall : ∀ m : nat,
                  simultaneous m u "" σ = (replicate m (Returned None), σ)).
        { induction m as [|m IH]; [done|]. simpl.
          unfold srpCheck_call at 1. rewrite Hacc, Hsrp. simpl. by rewrite IH. }
        rewrite Hall. simpl. split; [lia|]. apply Hsame.
      * destruct (cache σ !! fingerprint u p account) as [pid|] eqn:Hk.
        -- rewrite (simultaneous_hits (S n) u p σ account pid Hacc Hsrp Hp Hk).
           simpl. split; [lia|]. apply Hsame.
        -- simpl. rewrite (srpCheck_call_miss u p σ account Hacc Hsrp Hp Hk).
           erewrite (simultaneous_hits n u p _ account _ Hacc Hsrp Hp);
             [|simpl; apply lookup_insert_eq].
           simpl. split; [lia|]. apply Hsame.
    + assert (Hall : ∀ m : nat,
                simultaneous m u p σ = (replicate m (Returned None), σ)).
      { induction m as [|m IH]; [done|]. simpl.
        unfold srpCheck_call at 1. rewrite Hacc, Hsrp. simpl. by rewrite IH. }
      rewrite Hall. simpl. split; [lia|]. apply Hsame.
  - assert (Hall : ∀ m : nat,
              simultaneous m u p σ = (replicate m (Returned None), σ)).
    { induction m as [|m IH]; [done|]. simpl.
      unfold srpCheck_call at 1. rewrite Hacc. by rewrite IH. }
    rewrite Hall. simpl. split; [lia|]. apply Hsame.
Qed.

(** C2.  [n] simultaneous calls of [srpCheck] with the same user name and
    password, for an account with SRP material, a non-empty password and no
    entry under their key yet, start exactly one handshake: every call awaits
    the one promise the first call created, so that all of them get the same
    outcome, and they get one as soon as that promise is settled. *)
Theorem simultaneous_calls_share_one_handshake (n : nat) (u p : string)
    (σ : State) (account : Account) :
  (0 < n)%nat →
  getAccount u = Some account → truthy (srp account) = true → p ≠ "" →
  cache σ !! fingerprint u p account = None →
  handshakes (simultaneous n u p σ).2 = S (handshakes σ) ∧
  length (simultaneous n u p σ).1 = n ∧
  (∀ w : awaiting, w ∈ (simultaneous n u p σ).1 →
     w = Await (length (promises σ)) account) ∧
  (∀ (σ' : State) (w1 w2 : awaiting),
     w1 ∈ (simultaneous n u p σ).1 → w2 ∈ (simultaneous n u p σ).1 →
     outcome σ' w1 = outcome σ' w2) ∧
  (∀ w : awaiting, w ∈ (simultaneous n u p σ).1 →
     outcome (settle (length (promises σ)) (simultaneous n u p σ).2) w
     = Some (srpCheck_return account (settled_with (exchange u p account)))).
Proof.
  intros Hn Hacc Hsrp Hp Hmiss.
  destruct n as [|n]; [lia|]. simpl.
  rewrite (srpCheck_call_miss u p σ account Hacc Hsrp Hp Hmiss).
  set (k := fingerprint u p account). set (pid := length (promises σ)).
  erewrite (simultaneous_hits n u p _ account pid Hacc Hsrp Hp);
    [|simpl; apply lookup_insert_eq].
  simpl.
  assert (Hall : ∀ w : awaiting,
             w ∈ Await pid account :: replicate n (Await pid account) →
             w = Await pid account).
  { intros w [->|Hw]%elem_of_cons; [done|]. by apply elem_of_replicate_inv in Hw. }
  split; [done|]. split; [by rewrite length_replicate|]. split; [done|]. split.
  - intros σ' w1 w2 Hw1 Hw2. by rewrite (Hall w1 Hw1), (Hall w2 Hw2).
  - intros w Hw. rewrite (Hall w Hw).
    erewrite settle_pending; [|simpl; by apply list_lookup_middle].
    assert (Hlt : (pid < length (promises σ ++ [Pending u p account k]))%nat).
    { rewrite length_app. simpl. subst pid. lia. }
    destruct (exchange u p account) as [b|e]; simpl;
      by rewrite list_lookup_insert_eq.
Qed.

(** ** Eviction *)

Lemma fired_lookup_kept (l : list (Z * string)) (m : gmap string nat) (k : string) :
  (∀ tm : Z * string, tm ∈ l → tm.2 ≠ k) →
  foldr (λ timer c, delete timer.2 c) m l !! k = m !! k.
Proof.
  induction l as [|tm l IH]; intros Hl; [reflexivity|]. simpl.
  rewrite lookup_delete_ne by (apply Hl, elem_of_cons; by left).
  apply IH. intros tm' Hin. apply Hl, elem_of_cons. by right.
Qed.

Lemma fired_lookup_deleted (l : list (Z * string)) (m : gmap string nat)
    (tm : Z * string) :
  tm ∈ l → foldr (λ timer c, delete timer.2 c) m l !! tm.2 = None.
Proof.
  induction l as [|tm' l IH]; intros Hin; [by apply elem_of_nil in Hin|].
  simpl. destruct (decide (tm'.2 = tm.2)) as [->|Hne].
  - apply lookup_delete_eq.
  - rewrite lookup_delete_ne by done. apply IH.
    apply elem_of_cons in Hin as [->|Hin]; [done|done].
Qed.

(** Time passing keeps an entry whose key has no timer due. *)
Lemma advance_keeps (dt : Z) (σ : State) (k : string) :
  (∀ tm : Z * string, tm ∈ timers σ → tm.2 = k → (now σ + dt < tm.1)%Z) →
  cache (advance dt σ) !! k = cache σ !! k.
Proof.
  intros Hk. unfold advance. simpl. apply fired_lookup_kept.
  intros tm [Hdue Hin]%list_elem_of_filter Heq.
  unfold due in Hdue. apply bool_decide_eq_true in Hdue.
  specialize (Hk tm Hin Heq). lia.
Qed.

(** Time passing up to the deadline of a timer deletes the timer's key. *)
Lemma advance_deletes (dt : Z) (σ : State) (tm : Z * string) :
  tm ∈ timers σ → (tm.1 ≤ now σ + dt)%Z →
  cache (advance dt σ) !! tm.2 = None.
Proof.
  intros Hin Hdue. unfold advance. simpl. apply fired_lookup_deleted.
  apply list_elem_of_filter. split; [|done].
  unfold due. by apply bool_decide_eq_true.
Qed.

Lemma advance_timers (dt : Z) (σ : State) (tm : Z * string) :
  tm ∈ timers (advance dt σ) → tm ∈ timers σ.
Proof. unfold advance. simpl. by intros [_ Hin]%list_elem_of_filter. Qed.

(** ** Reachable states *)

Lemma srpCheck_call_cases (u p : string) (σ : State) :
  (srpCheck_call u p σ).2 = σ ∨
  ∃ account : Account,
    cache σ !! fingerprint u p account = None ∧
    (srpCheck_call u p σ).2
    = mkState (<[fingerprint u p account := length (promises σ)]> (cache σ))
        (promises σ ++ [Pending u p account (fingerprint u p account)])
        (timers σ) (now σ) (S (handshakes σ)).
Proof.
  unfold srpCheck_call. destruct (getAccount u) as [account|]; [|by left].
  destruct (negb (truthy (srp account)) || negb (truthy (Some p))); [by left|].
  unfold getOrSet.
  destruct (cache σ !! fingerprint u p account) as [pid|] eqn:Hk; [by left|].
  right. exists account. done.
Qed.

Lemma coherent_initial : coherent initial.
Proof.
  split; simpl.
  - intros tm Hin. by apply elem_of_nil in Hin.
  - intros pid u p account k Hp. by rewrite lookup_nil in Hp.
  - constructor.
Qed.

Lemma coherent_no_timer (σ : State) (k : string) :
  coherent σ → cache σ !! k = None →
  ∀ tm : Z * string, tm ∈ timers σ → tm.2 ≠ k.
Proof.
  intros Hc Hmiss tm Hin Heq.
  destruct (timers_settled σ Hc tm Hin) as (pid & good & Hk & _).
  rewrite Heq in Hk. congruence.
Qed.

Lemma coherent_call (u p : string) (σ : State) :
  coherent σ → coherent (srpCheck_call u p σ).2.
Proof.
  intros Hc. destruct (srpCheck_call_cases u p σ) as [-> | (account & Hmiss & ->)];
    [done|].
  set (k := fingerprint u p account) in *.
  split; simpl.
  - intros tm Hin.
    destruct (timers_settled σ Hc tm Hin) as (pid & good & Hk & Hp).
    exists pid, good. split.
    + rewrite lookup_insert_ne; [done|]. intros Heq. rewrite Heq in Hmiss. congruence.
    + rewrite lookup_app_l; [done|]. by eapply lookup_lt_Some.
  - intros pid u' p' account' k' Hp.
    destruct (decide (pid < length (promises σ))%nat) as [Hlt|Hge].
    + rewrite lookup_app_l in Hp by done.
      pose proof (pending_cached σ Hc _ _ _ _ _ Hp) as Hk.
      rewrite lookup_insert_ne; [done|]. intros Heq. rewrite Heq in Hmiss. congruence.
    + rewrite lookup_app_r in Hp by lia.
      destruct (pid - length (promises σ))%nat as [|m] eqn:Hm; simpl in Hp; [|done].
      injection Hp as <- <- <- <-. replace pid with (length (promises σ)) by lia.
      apply lookup_insert_eq.
  - apply (timers_nodup σ Hc).
Qed.

Lemma coherent_settle (pid : nat) (σ : State) :
  coherent σ → coherent (settle pid σ).
Proof.
  intros Hc.
  destruct (promises σ !! pid) as [[u p account k|good]|] eqn:Hpid;
    [|by rewrite (settle_settled pid σ good Hpid)|by unfold settle; rewrite Hpid].
  rewrite (settle_pending pid σ u p account k Hpid).
  pose proof (pending_cached σ Hc _ _ _ _ _ Hpid) as Hk.
  assert (Hlt : (pid < length (promises σ))%nat) by by eapply lookup_lt_Some.
  assert (Hold : ∀ (tm : Z * string) (r : res Z), tm ∈ timers σ →
            ∃ (pid' : nat) (good : res Z), cache σ !! tm.2 = Some pid' ∧
              <[pid := Settled r]> (promises σ) !! pid' = Some (Settled good)).
  { intros tm r Hin.
    destruct (timers_settled σ Hc tm Hin) as (pid' & good & Hk' & Hp').
    exists pid', good. split; [done|].
    rewrite list_lookup_insert_ne; [done|]. intros ->. congruence. }
  assert (Hpend : ∀ (r : res Z) (pid' : nat) (u' p' : string) (a' : Account) (k' : string),
            <[pid := Settled r]> (promises σ) !! pid' = Some (Pending u' p' a' k') →
            cache σ !! k' = Some pid').
  { intros r pid' u' p' a' k' Hp'.
    destruct (decide (pid = pid')) as [<-|Hne].
    - rewrite list_lookup_insert_eq in Hp' by done. discriminate.
    - rewrite list_lookup_insert_ne in Hp' by done.
      by apply (pending_cached σ Hc _ _ _ _ _ Hp'). }
  destruct (exchange u p account) as [b|e]; split; simpl.
  - intros tm [Hin|Hin%list_elem_of_singleton]%elem_of_app; [by apply Hold|].
    subst tm. simpl. eexists pid, _. split; [done|].
    by apply list_lookup_insert_eq.
  - by apply Hpend.
  - rewrite fmap_app. simpl. apply NoDup_app. split; [apply (timers_nodup σ Hc)|].
    split; [|apply NoDup_singleton].
    intros k' Hin Hin'%list_elem_of_singleton. subst k'.
    apply list_elem_of_fmap in Hin as (tm & Heq & Hin).
    destruct (timers_settled σ Hc tm Hin) as (pid' & good & Hk' & Hp').
    rewrite <- Heq in Hk'. congruence.
  - intros tm Hin. by apply Hold.
  - by apply Hpend.
  - apply (timers_nodup σ Hc).
Qed.

Lemma NoDup_keys_distinct (l : list (Z * string)) (tm tm' : Z * string) :
  NoDup l.*2 → tm ∈ l → tm' ∈ l → tm.2 = tm'.2 → tm = tm'.
Proof.
  induction l as [|x l IH]; intros Hnd Hin Hin'; [by apply elem_of_nil in Hin|].
  simpl in Hnd. apply NoDup_cons in Hnd as [Hx Hnd]. intros Heq.
  apply elem_of_cons in Hin as [->|Hin]; apply elem_of_cons in Hin' as [->|Hin'].
  - done.
  - destruct Hx. rewrite Heq. by apply list_elem_of_fmap_2.
  - destruct Hx. rewrite <- Heq. by apply list_elem_of_fmap_2.
  - by apply IH.
Qed.

Lemma NoDup_keys_filter (P : Z * string → Prop) `{∀ x, Decision (P x)}
    (l : list (Z * string)) :
  NoDup l.*2 → NoDup (filter P l).*2.
Proof.
  induction l as [|x l IH]; intros Hnd; [constructor|].
  simpl in Hnd. apply NoDup_cons in Hnd as [Hx Hnd].
  rewrite filter_cons. destruct (decide (P x)); [|by apply IH].
  simpl. apply NoDup_cons. split; [|by apply IH].
  intros Hin. apply Hx. apply list_elem_of_fmap in Hin as (y & Hy & Hin).
  apply list_elem_of_filter in Hin as [_ Hin]. rewrite Hy.
  by apply list_elem_of_fmap_2.
Qed.

Lemma coherent_advance (dt : Z) (σ : State) :
  coherent σ → coherent (advance dt σ).
Proof.
  intros Hc. split.
  - intros tm Hin.
    assert (Hin0 : tm ∈ timers σ) by by eapply advance_timers.
    destruct (timers_settled σ Hc tm Hin0) as (pid & good & Hk & Hp).
    exists pid, good. split; [|done].
    rewrite advance_keeps; [done|]. intros tm' Hin' Heq.
    assert (tm' = tm) as ->.
    { by apply (NoDup_keys_distinct (timers σ)); [apply (timers_nodup σ Hc)|..]. }
    unfold advance in Hin. simpl in Hin.
    apply list_elem_of_filter in Hin as [Hdue _].
    unfold due in Hdue. apply bool_decide_eq_false in Hdue. lia.
  - intros pid u p account k Hp. simpl in Hp.
    pose proof (pending_cached σ Hc _ _ _ _ _ Hp) as Hk.
    rewrite advance_keeps; [done|]. intros tm Hin Heq.
    destruct (timers_settled σ Hc tm Hin) as (pid' & good & Hk' & Hp').
    rewrite Heq in Hk'. congruence.
  - simpl. apply NoDup_keys_filter, (timers_nodup σ Hc).
Qed.

Lemma reachable_coherent (σ : State) : reachable σ → coherent σ.
Proof.
  unfold reachable. revert σ. apply rtc_ind_r; [apply coherent_initial|].
  intros σ σ' _ Hs IH. destruct Hs.
  - by apply coherent_call.
  - by apply coherent_settle.
  - by apply coherent_advance.
Qed.


(** ** Further properties of the SRP engine *)

Lemma split_no_separator (sep : ascii) (s : string) :
  occurs sep s = false → split sep s = [s].
Proof.
  induction s as [|c s IH]; [reflexivity|]. simpl. intros Hocc.
  apply orb_false_iff in Hocc as [Hc Hs]. rewrite Hc, (IH Hs). reflexivity.
Qed.

Lemma split_at_separator (sep : ascii) (piece rest : string) :
  occurs sep piece = false →
  split sep (piece +:+ String sep rest) = piece :: split sep rest.
Proof.
  induction piece as [|c piece IH]; simpl.
  - intros _. by rewrite bool_decide_eq_true_2.
  - intros Hocc. apply orb_false_iff in Hocc as [Hc Hs].
    rewrite Hc. fold (piece +:+ String sep rest). by rewrite (IH Hs).
Qed.

Lemma split_nonempty (sep : ascii) (s : string) : split sep s ≠ [].
Proof.
  destruct s as [|c s]; simpl; [done|].
  case_bool_decide; [done|]. by destruct (split sep s).
Qed.

(** X1.  An account whose [srp] is a salt and a verifier joined by a bar,
    both non-empty, free of bars and accepted by [BigInt], makes [srpStep1]
    run the server's [step1] on the user name and the two numbers; it resolves
    with the salt text as stored and with [B] in decimal, and rejects with
    what [step1] rejects with.  Whatever follows a second bar is ignored. *)
Theorem srpStep1_reads_salt_and_verifier (name salt verifier rest : string)
    (zs zv : Z) :
  occurs "|" salt = false → occurs "|" verifier = false →
  salt ≠ "" → verifier ≠ "" →
  BigInt salt = Some zs → BigInt verifier = Some zv →
  srpStep1 (mkAccount name (Some (salt +:+ "|" +:+ verifier)))
    = res_bind (step1 name zs zv) (λ st, Ok (st, salt, pretty (B st))) ∧
  srpStep1 (mkAccount name (Some (salt +:+ "|" +:+ verifier +:+ "|" +:+ rest)))
    = srpStep1 (mkAccount name (Some (salt +:+ "|" +:+ verifier))).
Proof.
  intros Hsalt Hver Hs Hv Hzs Hzv.
  assert (Hrun : ∀ tail : list string,
    split "|" (salt +:+ "|" +:+ verifier) = salt :: verifier :: [] →
    ∀ text : string, split "|" text = salt :: verifier :: tail →
    srpStep1 (mkAccount name (Some text))
    = res_bind (step1 name zs zv) (λ st, Ok (st, salt, pretty (B st)))).
  { intros tail _ text Htext. unfold srpStep1. simpl.
    assert (Hne : text ≠ "").
    { intros ->. simpl in Htext. congruence. }
    rewrite bool_decide_eq_false_2 by done. simpl. rewrite Htext. simpl.
    rewrite !bool_decide_eq_false_2 by done. simpl. by rewrite Hzs, Hzv. }
  assert (Hshort : split "|" (salt +:+ "|" +:+ verifier) = [salt; verifier]).
  { change (salt +:+ "|" +:+ verifier) with (salt +:+ String "|" verifier).
    rewrite split_at_separator by done. by rewrite split_no_separator. }
  assert (Hlong : split "|" (salt +:+ "|" +:+ verifier +:+ "|" +:+ rest)
                  = salt :: verifier :: split "|" rest).
  { change (salt +:+ "|" +:+ verifier +:+ "|" +:+ rest)
      with (salt +:+ String "|" (verifier +:+ String "|" rest)).
    rewrite split_at_separator by done. by rewrite split_at_separator. }
  split.
  - by apply (Hrun [] Hshort).
  - rewrite (Hrun [] Hshort _ Hshort). by apply (Hrun _ Hshort _ Hlong).
Qed.

(** ** Further properties of the verification cache *)

Lemma fired_lookup_Some (l : list (Z * string)) (m : gmap string nat)
    (k : string) (v : nat) :
  foldr (λ timer c, delete timer.2 c) m l !! k = Some v → m !! k = Some v.
Proof.
  induction l as [|tm l IH]; simpl; [done|].
  rewrite lookup_delete. case_decide; [done|]. apply IH.
Qed.

Lemma advance_lookup_Some (dt : Z) (σ : State) (k : string) (pid : nat) :
  cache (advance dt σ) !! k = Some pid → cache σ !! k = Some pid.
Proof. unfold advance. simpl. apply fired_lookup_Some. Qed.

Lemma sound_initial : sound initial.
Proof.
  split; simpl.
  - intros k pid Hk. by rewrite lookup_empty in Hk.
  - intros pid u p account k Hp. by rewrite lookup_nil in Hp.
  - intros tm Hin. by apply elem_of_nil in Hin.
Qed.

Lemma srpCheck_call_cases_full (u p : string) (σ : State) :
  (srpCheck_call u p σ).2 = σ ∨
  ∃ account : Account,
    getAccount u = Some account ∧ truthy (srp account) = true ∧ p ≠ "" ∧
    cache σ !! fingerprint u p account = None ∧
    srpCheck_call u p σ
    = (Await (length (promises σ)) account,
       mkState (<[fingerprint u p account := length (promises σ)]> (cache σ))
         (promises σ ++ [Pending u p account (fingerprint u p account)])
         (timers σ) (now σ) (S (handshakes σ))).
Proof.
  destruct (getAccount u) as [account|] eqn:Hacc;
    [|left; unfold srpCheck_call; by rewrite Hacc].
  destruct (truthy (srp account)) eqn:Hsrp;
    [|left; unfold srpCheck_call; by rewrite Hacc, Hsrp].
  destruct (decide (p = "")) as [->|Hp].
  { left. unfold srpCheck_call. rewrite Hacc, Hsrp. reflexivity. }
  destruct (cache σ !! fingerprint u p account) as [pid|] eqn:Hk.
  - left. by rewrite (srpCheck_call_hit u p σ account pid).
  - right. exists account. repeat split; try done.
    by apply srpCheck_call_miss.
Qed.

Lemma sound_call (u p : string) (σ : State) :
  sound σ → sound (srpCheck_call u p σ).2.
Proof.
  intros Hs.
  destruct (srpCheck_call_cases_full u p σ)
    as [-> | (account & Hacc & Hsrp & Hp & Hmiss & ->)]; [done|].
  split; simpl.
  - intros k pid Hk. rewrite length_app. simpl.
    apply lookup_insert_Some in Hk as [[_ <-]|[_ Hk]]; [lia|].
    pose proof (cache_in_store σ Hs k pid Hk). lia.
  - intros pid u' p' account' k' Hpid.
    destruct (decide (pid < length (promises σ))%nat) as [Hlt|Hge].
    + rewrite lookup_app_l in Hpid by done.
      by apply (pending_closure σ Hs pid).
    + rewrite lookup_app_r in Hpid by lia.
      destruct (pid - length (promises σ))%nat as [|m]; simpl in Hpid; [|done].
      by injection Hpid as <- <- <- <-.
  - apply (timers_in_window σ Hs).
Qed.

Lemma sound_settle (pid : nat) (σ : State) : sound σ → sound (settle pid σ).
Proof.
  intros Hs.
  destruct (promises σ !! pid) as [[u p account k|good]|] eqn:Hpid;
    [|by rewrite (settle_settled pid σ good Hpid)|by unfold settle; rewrite Hpid].
  rewrite (settle_pending pid σ u p account k Hpid).
  assert (Hlt : (pid < length (promises σ))%nat) by by eapply lookup_lt_Some.
  assert (Hpend : ∀ (r : res Z) (pid' : nat) (u' p' : string) (a' : Account)
                    (k' : string),
            <[pid := Settled r]> (promises σ) !! pid' = Some (Pending u' p' a' k') →
            promises σ !! pid' = Some (Pending u' p' a' k')).
  { intros r pid' u' p' a' k' Hp'.
    destruct (decide (pid = pid')) as [<-|Hne].
    - rewrite list_lookup_insert_eq in Hp' by done. discriminate.
    - by rewrite list_lookup_insert_ne in Hp' by done. }
  destruct (exchange u p account) as [b|e]; split; simpl.
  - intros k' pid' Hk. rewrite length_insert. by apply (cache_in_store σ Hs k').
  - intros pid' u' p' a' k' Hp'. apply (pending_closure σ Hs pid'). by eapply Hpend.
  - intros tm [Hin|Hin%list_elem_of_singleton]%elem_of_app.
    + by apply (timers_in_window σ Hs).
    + subst tm. simpl. lia.
  - intros k' pid' Hk. rewrite length_insert. by apply (cache_in_store σ Hs k').
  - intros pid' u' p' a' k' Hp'. apply (pending_closure σ Hs pid'). by eapply Hpend.
  - apply (timers_in_window σ Hs).
Qed.

Lemma sound_advance (dt : Z) (σ : State) :
  (0 ≤ dt)%Z → sound σ → sound (advance dt σ).
Proof.
  intros Hdt Hs. split.
  - intros k pid Hk%advance_lookup_Some. by apply (cache_in_store σ Hs k).
  - intros pid u p account k Hpid. by apply (pending_closure σ Hs pid).
  - intros tm Hin. pose proof Hin as Hin0%advance_timers.
    pose proof (timers_in_window σ Hs tm Hin0) as Hwin.
    unfold advance in Hin |- *. simpl in Hin |- *.
    apply list_elem_of_filter in Hin as [Hdue _].
    unfold due in Hdue. apply bool_decide_eq_false in Hdue. lia.
Qed.

Lemma reachable_sound (σ : State) : reachable σ → sound σ.
Proof.
  unfold reachable. revert σ. apply rtc_ind_r; [apply sound_initial|].
  intros σ σ' _ Hs IH. destruct Hs.
  - by apply sound_call.
  - by apply sound_settle.
  - by apply sound_advance.
Qed.

Lemma later_refl (σ : State) : later σ σ.
Proof. split; [lia|lia|done|by left]. Qed.

Lemma later_trans (σ1 σ2 σ3 : State) : later σ1 σ2 → later σ2 σ3 → later σ1 σ3.
Proof.
  intros H12 H23. split.
  - pose proof (now_mono _ _ H12). pose proof (now_mono _ _ H23). lia.
  - pose proof (handshakes_mono _ _ H12). pose proof (handshakes_mono _ _ H23). lia.
  - intros pid good Hp. by apply (settled_kept _ _ H23), (settled_kept _ _ H12).
  - intros pid u p account k Hp.
    destruct (pending_settles _ _ H12 pid u p account k Hp) as [Hpend|Hset].
    + by apply (pending_settles _ _ H23).
    + right. by apply (settled_kept _ _ H23).
Qed.

Lemma later_call (u p : string) (σ : State) : later σ (srpCheck_call u p σ).2.
Proof.
  destruct (srpCheck_call_cases_full u p σ)
    as [-> | (account & _ & _ & _ & _ & ->)]; [apply later_refl|].
  split; simpl; [lia|lia| |].
  - intros pid good Hp. rewrite lookup_app_l; [done|]. by eapply lookup_lt_Some.
  - intros pid u' p' a' k' Hp. left.
    rewrite lookup_app_l; [done|]. by eapply lookup_lt_Some.
Qed.

Lemma later_settle (pid : nat) (σ : State) : later σ (settle pid σ).
Proof.
  destruct (promises σ !! pid) as [[u p account k|good]|] eqn:Hpid;
    [|rewrite (settle_settled pid σ good Hpid); apply later_refl
     |unfold settle; rewrite Hpid; apply later_refl].
  assert (Hlt : (pid < length (promises σ))%nat) by by eapply lookup_lt_Some.
  assert (Hshape : ∃ σ' : State,
            settle pid σ = σ' ∧ now σ' = now σ ∧ handshakes σ' = handshakes σ ∧
            promises σ'
            = <[pid := Settled (settled_with (exchange u p account))]> (promises σ)).
  { rewrite (settle_pending pid σ u p account k Hpid).
    destruct (exchange u p account) as [b|e]; eexists; done. }
  destruct Hshape as (σ' & -> & Hnow & Hhs & Hps).
  split; [lia|lia| |]; rewrite Hps.
  - intros pid' good Hp. rewrite list_lookup_insert_ne; [done|].
    intros ->. congruence.
  - intros pid' u' p' a' k' Hp. destruct (decide (pid = pid')) as [<-|Hne].
    + right. rewrite list_lookup_insert_eq by done. congruence.
    + left. by rewrite list_lookup_insert_ne.
Qed.

Lemma later_advance (dt : Z) (σ : State) : (0 ≤ dt)%Z → later σ (advance dt σ).
Proof. intros Hdt. split; simpl; [lia|lia|done|by left]. Qed.

Lemma later_steps (σ σ' : State) : rtc step σ σ' → later σ σ'.
Proof.
  intros Hsteps. induction Hsteps as [σ|σ1 σ2 σ3 Hstep _ IH]; [apply later_refl|].
  apply (later_trans σ1 σ2 σ3); [|done]. destruct Hstep.
  - apply later_call.
  - apply later_settle.
  - by apply later_advance.
Qed.

(** The three ways a call can stand at its [await]. *)
Lemma srpCheck_call_shape (u p : string) (σ : State) :
  srpCheck_call u p σ = (Returned None, σ) ∨
  (∃ (account : Account) (pid : nat),
     getAccount u = Some account ∧ truthy (srp account) = true ∧ p ≠ "" ∧
     cache σ !! fingerprint u p account = Some pid ∧
     srpCheck_call u p σ = (Await pid account, σ)) ∨
  (∃ account : Account,
     getAccount u = Some account ∧ truthy (srp account) = true ∧ p ≠ "" ∧
     cache σ !! fingerprint u p account = None).
Proof.
  destruct (getAccount u) as [account|] eqn:Hacc;
    [|left; unfold srpCheck_call; by rewrite Hacc].
  destruct (truthy (srp account)) eqn:Hsrp;
    [|left; unfold srpCheck_call; by rewrite Hacc, Hsrp].
  destruct (decide (p = "")) as [->|Hp].
  { left. unfold srpCheck_call. rewrite Hacc, Hsrp. reflexivity. }
  destruct (cache σ !! fingerprint u p account) as [pid|] eqn:Hk.
  - right. left. exists account, pid. repeat split; try done.
    by apply srpCheck_call_hit.
  - right. right. by exists account.
Qed.

(** C1, as amended.  For an unknown user [srpCheck] resolves to undefined.
    For an existing account and a non-empty password, a call that finds no
    entry under the key of line 26 resolves to the account when the password
    matches the stored verifier (the SRP exchange accepts) and to undefined
    when it does not; and so does every later call with the same user name
    and password for as long as the entry that call created is the one under
    the key, whatever calls, settlements and evictions came in between, and
    it starts no handshake.  A call that finds a settled entry under its key
    resolves by the value of that entry, to the account when it is not 0 and
    to undefined when it is 0.  In each of these cases the call resolves:
    the rejection is a value, no exception. *)
Theorem srpCheck_verdict (u p : string) :
  (∀ σ : State, getAccount u = None → (srpCheck u p σ).1 = Some (Ok None)) ∧
  (∀ (σ : State) (account : Account) (b : bool),
     getAccount u = Some account → p ≠ "" →
     exchange u p account = Ok b →
     cache σ !! fingerprint u p account = None →
     (srpCheck u p σ).1 = Some (Ok (if b then Some account else None)) ∧
     ∀ σ' : State,
       rtc step (srpCheck_call u p σ).2 σ' →
       cache σ' !! fingerprint u p account = Some (length (promises σ)) →
       (srpCheck u p σ').1 = Some (Ok (if b then Some account else None)) ∧
       handshakes (srpCheck u p σ').2 = handshakes σ') ∧
  (∀ (σ : State) (account : Account) (pid : nat) (good : Z),
     getAccount u = Some account → truthy (srp account) = true → p ≠ "" →
     cache σ !! fingerprint u p account = Some pid →
     promises σ !! pid = Some (Settled (Ok good)) →
     (srpCheck u p σ).1
     = Some (Ok (if bool_decide (good = 0%Z) then None else Some account))).
Proof.
  split; [|split].
  - intros σ Hnone. unfold srpCheck, srpCheck_call. by rewrite Hnone.
  - intros σ account b Hacc Hp Hx Hmiss.
    pose proof (exchange_Ok_truthy u p account b Hx) as Hsrp.
    assert (Hv : srpCheck_return account (Ok (if b then 1%Z else 0%Z))
                 = Ok (if b then Some account else None)).
    { by destruct b. }
    split.
    + destruct (srpCheck_fresh u p σ account Hacc Hsrp Hp Hmiss) as (Hres & _ & _).
      rewrite Hx in Hres. unfold settled_with in Hres. by rewrite Hres, Hv.
    + intros σ' Hsteps Hk.
      rewrite (srpCheck_call_miss u p σ account Hacc Hsrp Hp Hmiss) in Hsteps.
      apply later_steps in Hsteps.
      assert (Hmine : promises σ' !! length (promises σ)
                      = Some (Pending u p account (fingerprint u p account)) ∨
                      promises σ' !! length (promises σ)
                      = Some (Settled (Ok (if b then 1%Z else 0%Z)))).
      { destruct (pending_settles _ _ Hsteps (length (promises σ)) u p account
                    (fingerprint u p account)) as [Hpend|Hset].
        - simpl. by apply list_lookup_middle.
        - by left.
        - right. by rewrite Hx in Hset. }
      unfold srpCheck.
      rewrite (srpCheck_call_hit u p σ' account _ Hacc Hsrp Hp Hk).
      destruct Hmine as [Hpend|Hset].
      * rewrite (settle_pending _ σ' u p account _ Hpend), Hx. simpl.
        rewrite list_lookup_insert_eq by by eapply lookup_lt_Some.
        by rewrite Hv.
      * rewrite (settle_settled _ σ' _ Hset). simpl. by rewrite Hset, Hv.
  - intros σ account pid good Hacc Hsrp Hp Hk Hpid.
    by rewrite (srpCheck_again u p σ account pid (Ok good) Hacc Hsrp Hp Hk Hpid).
Qed.

(** X2.  A call of [srpCheck] that resolves to an account resolves to the
    account that [getAccount] gives for its own [username]; that account has
    SRP material and the password was not empty.  This holds in every state
    of the cache. *)
Theorem srpCheck_returns_own_account (u p : string) (σ : State) (a : Account) :
  (srpCheck u p σ).1 = Some (Ok (Some a)) →
  getAccount u = Some a ∧ truthy (srp a) = true ∧ p ≠ "".
Proof.
  assert (Hret : ∀ (account : Account) (good : res Z),
            srpCheck_return account good = Ok (Some a) → account = a).
  { intros account [g|e]; simpl; [|discriminate].
    case_bool_decide; [discriminate|]. congruence. }
  destruct (srpCheck_call_shape u p σ)
    as [Hcall | [(account & pid & Hacc & Hsrp & Hp & Hk & Hcall)
               | (account & Hacc & Hsrp & Hp & Hk)]].
  - unfold srpCheck. rewrite Hcall. simpl. discriminate.
  - unfold srpCheck. rewrite Hcall. simpl.
    destruct (promises (settle pid σ) !! pid) as [[| good]|]; try discriminate.
    intros [= Hgood]. apply Hret in Hgood as <-. done.
  - destruct (srpCheck_fresh u p σ account Hacc Hsrp Hp Hk) as (-> & _ & _).
    intros [= Hgood]. apply Hret in Hgood as <-. done.
Qed.

(** X3.  In a reachable state a call of [srpCheck] run to its end settles: it
    resolves or it rejects, it is never left waiting on its promise. *)
Theorem srpCheck_settles_when_reachable (u p : string) (σ : State) :
  reachable σ → is_Some (srpCheck u p σ).1.
Proof.
  intros Hreach. pose proof (reachable_sound σ Hreach) as Hs.
  destruct (srpCheck_call_shape u p σ)
    as [Hcall | [(account & pid & Hacc & Hsrp & Hp & Hk & Hcall)
               | (account & Hacc & Hsrp & Hp & Hk)]].
  - unfold srpCheck. rewrite Hcall. simpl. by eexists.
  - unfold srpCheck. rewrite Hcall. simpl.
    pose proof (cache_in_store σ Hs _ pid Hk) as Hlt.
    destruct (lookup_lt_is_Some_2 (promises σ) pid Hlt) as [[u' p' a' k'|good] Hpid].
    + rewrite (settle_pending pid σ u' p' a' k' Hpid).
      destruct (exchange u' p' a'); simpl;
        rewrite list_lookup_insert_eq by done; by eexists.
    + rewrite (settle_settled pid σ good Hpid), Hpid. by eexists.
  - destruct (srpCheck_fresh u p σ account Hacc Hsrp Hp Hk) as (-> & _ & _).
    by eexists.
Qed.

(** X4.  From any state on, the clock and the count of handshakes never go
    back, and the result a caller has got from its promise is the result it
    keeps, whatever calls, settlements and evictions follow; a caller that
    awaits a pending promise can only get the verdict of the exchange for
    which that promise was created. *)
Theorem outcome_is_final (σ σ' : State) :
  rtc step σ σ' →
  (now σ ≤ now σ')%Z ∧ (handshakes σ ≤ handshakes σ')%nat ∧
  (∀ (w : awaiting) (r : res (option Account)),
     outcome σ w = Some r → outcome σ' w = Some r) ∧
  (∀ (pid : nat) (u p : string) (account a : Account) (k : string)
     (r : res (option Account)),
     promises σ !! pid = Some (Pending u p account k) →
     outcome σ' (Await pid a) = Some r →
     r = srpCheck_return a (settled_with (exchange u p account))).
Proof.
  intros Hl%later_steps.
  split; [apply (now_mono _ _ Hl)|]. split; [apply (handshakes_mono _ _ Hl)|].
  split.
  - intros [v|pid a] r; simpl; [done|].
    destruct (promises σ !! pid) as [[|good]|] eqn:Hpid; try discriminate.
    intros [= <-]. by rewrite (settled_kept _ _ Hl pid good Hpid).
  - intros pid u p account a k r Hpid. simpl.
    destruct (pending_settles _ _ Hl pid u p account k Hpid) as [-> | ->];
      [discriminate|]. by intros [= <-].
Qed.

(** X5.  The shape of the cache in every reachable state: an entry is a
    promise of the store; the creator behind a pending promise was invoked
    under the key of line 26 for its user name, password and account, an
    account with SRP material, and a password that is not empty; the key of
    a pending timer has an entry, and no key has two timers. *)
Theorem reachable_cache_structure (σ : State) :
  reachable σ →
  (∀ (k : string) (pid : nat),
     cache σ !! k = Some pid → is_Some (promises σ !! pid)) ∧
  (∀ (pid : nat) (u p : string) (account : Account) (k : string),
     promises σ !! pid = Some (Pending u p account k) →
     k = fingerprint u p account ∧ truthy (srp account) = true ∧ p ≠ "") ∧
  (∀ tm : Z * string, tm ∈ timers σ → is_Some (cache σ !! tm.2)) ∧
  NoDup (timers σ).*2.
Proof.
  intros Hreach.
  pose proof (reachable_coherent σ Hreach) as Hc.
  pose proof (reachable_sound σ Hreach) as Hs.
  split; [|split; [|split]].
  - intros k pid Hk. apply lookup_lt_is_Some_2. by apply (cache_in_store σ Hs k).
  - intros pid u p account k Hpid.
    by destruct (pending_closure σ Hs pid u p account k Hpid) as (_ & Hsrp & Hp & Hk).
  - intros tm Hin.
    destruct (timers_settled σ Hc tm Hin) as (pid & good & Hk & _). by eexists.
  - apply (timers_nodup σ Hc).
Qed.

(** X6.  In every reachable state a pending timer is due within the next 60
    seconds, so that no entry with a timer is left once 60 seconds have
    passed. *)
Theorem timed_entries_expire_within_window (σ : State) (tm : Z * string) :
  reachable σ → tm ∈ timers σ →
  (now σ < tm.1 ≤ now σ + 60000)%Z ∧
  ∀ dt : Z, (60000 ≤ dt)%Z → cache (advance dt σ) !! tm.2 = None.
Proof.
  intros Hreach Hin.
  pose proof (timers_in_window σ (reachable_sound σ Hreach) tm Hin) as Hwin.
  split; [done|]. intros dt Hdt. apply advance_deletes; [done|lia].
Qed.

Lemma advances_keep_untimed (k : string) (pid : nat) (good : res Z)
    (dts : list Z) (σ : State) :
  cache σ !! k = Some pid → promises σ !! pid = Some (Settled good) →
  (∀ tm : Z * string, tm ∈ timers σ → tm.2 ≠ k) →
  cache (foldl (λ s dt, advance dt s) σ dts) !! k = Some pid ∧
  promises (foldl (λ s dt, advance dt s) σ dts) !! pid = Some (Settled good).
Proof.
  revert σ. induction dts as [|dt dts IH]; intros σ Hk Hpid Hfree; [done|].
  simpl. apply IH.
  - rewrite advance_keeps; [done|]. intros tm Hin Heq. by destruct (Hfree tm Hin).
  - done.
  - intros tm Hin%advance_timers. by apply Hfree.
Qed.

(** X7.  When [srpStep1] or the client part throws, the call of [srpCheck]
    that created the entry rejects with that very error, no timer is
    registered, and the entry stays for good: however much time passes, an
    identical call finds it, starts no handshake and rejects with the same
    error. *)
Theorem thrown_entry_is_never_evicted (u p : string) (σ : State)
    (account : Account) (e : exn) :
  reachable σ →
  getAccount u = Some account → truthy (srp account) = true → p ≠ "" →
  cache σ !! fingerprint u p account = None →
  exchange u p account = Throw e →
  (srpCheck u p σ).1 = Some (Throw e) ∧
  timers (srpCheck u p σ).2 = timers σ ∧
  ∀ dts : list Z,
    cache (foldl (λ s dt, advance dt s) (srpCheck u p σ).2 dts)
      !! fingerprint u p account = Some (length (promises σ)) ∧
    srpCheck u p (foldl (λ s dt, advance dt s) (srpCheck u p σ).2 dts)
    = (Some (Throw e), foldl (λ s dt, advance dt s) (srpCheck u p σ).2 dts).
Proof.
  intros Hreach Hacc Hsrp Hp Hmiss Hx.
  destruct (srpCheck_fresh u p σ account Hacc Hsrp Hp Hmiss) as (Hres & Hk & Hpid).
  rewrite Hx in Hres, Hpid. simpl in Hres, Hpid.
  assert (Htimers : timers (srpCheck u p σ).2 = timers σ).
  { unfold srpCheck. rewrite (srpCheck_call_miss u p σ account Hacc Hsrp Hp Hmiss).
    simpl. erewrite settle_pending; [|simpl; by apply list_lookup_middle].
    by rewrite Hx. }
  split; [done|]. split; [done|]. intros dts.
  destruct (advances_keep_untimed (fingerprint u p account) (length (promises σ))
              (Throw e) dts (srpCheck u p σ).2 Hk Hpid) as [Hk' Hpid'].
  { rewrite Htimers.
    apply (coherent_no_timer σ _ (reachable_coherent σ Hreach) Hmiss). }
  split; [done|].
  by rewrite (srpCheck_again u p _ account _ (Throw e) Hacc Hsrp Hp Hk' Hpid').
Qed.

Lemma append_assoc (s1 s2 s3 : string) : (s1 +:+ s2) +:+ s3 = s1 +:+ s2 +:+ s3.
Proof.
  induction s1 as [|c s1 IH]; [reflexivity|].
  change (String c ((s1 +:+ s2) +:+ s3) = String c (s1 +:+ s2 +:+ s3)).
  by rewrite IH.
Qed.

(** X8.  The key of line 26 is the digest of the three texts run together:
    two calls whose user name and password run together to the same text, for
    accounts with the same [srp], have the same key.  So after the first has
    been accepted, the second, while the entry is there, reuses that verdict:
    it starts no handshake and resolves to its own account, whatever the SRP
    exchange would say about its own password. *)
Theorem cached_verdict_is_shared_by_key (u1 p1 u2 p2 : string) (σ : State)
    (a1 a2 : Account) :
  u1 +:+ p1 = u2 +:+ p2 → srp a1 = srp a2 →
  getAccount u1 = Some a1 → getAccount u2 = Some a2 →
  p1 ≠ "" → p2 ≠ "" →
  cache σ !! fingerprint u1 p1 a1 = None →
  exchange u1 p1 a1 = Ok true →
  fingerprint u1 p1 a1 = fingerprint u2 p2 a2 ∧
  srpCheck u2 p2 (srpCheck u1 p1 σ).2
  = (Some (Ok (Some a2)), (srpCheck u1 p1 σ).2).
Proof.
  intros Hcat Hsame Hacc1 Hacc2 Hp1 Hp2 Hmiss Hx.
  assert (Hkey : fingerprint u1 p1 a1 = fingerprint u2 p2 a2).
  { unfold fingerprint. rewrite <- Hsame.
    rewrite <- (append_assoc u1 p1), <- (append_assoc u2 p2). by rewrite Hcat. }
  split; [done|].
  pose proof (exchange_Ok_truthy u1 p1 a1 true Hx) as Hsrp1.
  assert (Hsrp2 : truthy (srp a2) = true) by by rewrite <- Hsame.
  destruct (srpCheck_fresh u1 p1 σ a1 Hacc1 Hsrp1 Hp1 Hmiss) as (_ & Hk & Hpid).
  rewrite Hx in Hpid. rewrite Hkey in Hk.
  by rewrite (srpCheck_again u2 p2 _ a2 _ _ Hacc2 Hsrp2 Hp2 Hk Hpid).
Qed.

(** ** Further properties of the session manager *)

(** X9.  Right after a login in a context with a session,
    [getCurrentUsername] returns the [username] of the account that
    [getAccount] resolves for the name given, not the name given nor its
    normalized form; when no such account exists the login resolves all the
    same, the session holds the normalized name and [getCurrentUsername]
    returns the empty string. *)
Theorem login_then_current_username (ctx : Context) (s : Session) (u : string)
    (inv : gset string) :
  session ctx = Some s →
  getCurrentUsername (setLoggedIn ctx (Some u) inv).1.2
    = default "" (username <$> getAccount u) ∧
  (getAccount u = None →
   (setLoggedIn ctx (Some u) inv).1.1 = Ok () ∧
   session (setLoggedIn ctx (Some u) inv).1.2
     = Some (mkSession (Some (normalizeUsername u))) ∧
   getCurrentUsername (setLoggedIn ctx (Some u) inv).1.2 = "").
Proof.
  intros Hs. rewrite (setLoggedIn_name ctx s u inv Hs). simpl.
  rewrite getCurrentUsername_read. simpl. split; [done|].
  intros Hnone. by rewrite Hnone.
Qed.

(** X10.  In a context with a session, a login overrides whatever login or
    logout was done before it: the context it leaves is the one the login
    alone would have left, and [invalidSessions] has lost the names of both
    logins and nothing else. *)
Theorem login_overrides_previous (ctx : Context) (s : Session)
    (first : option string) (u : string) (inv : gset string) :
  session ctx = Some s →
  let before := setLoggedIn ctx first inv in
  let after := setLoggedIn before.1.2 (Some u) before.2 in
  after.1.1 = Ok () ∧
  after.1.2 = (setLoggedIn ctx (Some u) inv).1.2 ∧
  after.2 = match first with
            | Some name => inv ∖ {[ name ]} ∖ {[ u ]}
            | None => inv ∖ {[ u ]}
            end.
Proof.
  intros Hs before after. subst after before.
  destruct first as [name|].
  - rewrite (setLoggedIn_name ctx s name inv Hs),
      (setLoggedIn_name ctx s u inv Hs). simpl.
    unfold setLoggedIn. simpl. done.
  - rewrite (setLoggedIn_false ctx s inv Hs),
      (setLoggedIn_name ctx s u inv Hs). simpl.
    unfold setLoggedIn. simpl. done.
Qed.

(** X11.  [setLoggedIn] rejects exactly when the context has no session; it
    never adds a name to [invalidSessions], and it neither attaches nor
    removes the session object. *)
Theorem setLoggedIn_rejects_only_without_session (ctx : Context)
    (u : option string) (inv : gset string) :
  ((setLoggedIn ctx u inv).1.1 = Ok () ↔ is_Some (session ctx)) ∧
  (setLoggedIn ctx u inv).2 ⊆ inv ∧
  (is_Some (session (setLoggedIn ctx u inv).1.2) ↔ is_Some (session ctx)).
Proof.
  unfold setLoggedIn. destruct (session ctx) as [s|] eqn:Hs.
  - destruct u as [name|]; simpl.
    + split; [split; [by eexists|done]|]. split.
      * intros x Hx. apply elem_of_difference in Hx. tauto.
      * split; by eexists.
    + split; [split; [by eexists|done]|]. split; [done|]. split; by eexists.
  - simpl. rewrite Hs. split; [split; [discriminate|by intros [? ?]]|].
    split; [done|]. done.
Qed.

End Properties.

(** * Properties of splitting and of the table of countries *)

Lemma join_cons_char (sep : string) (c : ascii) (piece : string)
    (rest : list string) :
  join sep (String c piece :: rest) = String c (join sep (piece :: rest)).
Proof. by destruct rest. Qed.

Lemma join_split (sep : ascii) (s : string) :
  join (String sep "") (split sep s) = s.
Proof.
  induction s as [|c s IH]; [reflexivity|]. simpl split.
  case_bool_decide as Hc.
  - subst c. pose proof (split_nonempty sep s) as Hne.
    destruct (split sep s) as [|piece rest] eqn:Hsplit; [done|].
    change (join (String sep "") ("" :: piece :: rest))
      with (String sep (join (String sep "") (piece :: rest))).
    by rewrite IH.
  - pose proof (split_nonempty sep s) as Hne.
    destruct (split sep s) as [|piece rest] eqn:Hsplit; [done|].
    by rewrite join_cons_char, IH.
Qed.

Lemma split_join (sep : ascii) (pieces : list string) :
  pieces ≠ [] → Forall (λ piece, occurs sep piece = false) pieces →
  split sep (join (String sep "") pieces) = pieces.
Proof.
  induction pieces as [|piece rest IH]; [done|]. intros _ Hall.
  apply Forall_cons in Hall as [Hpiece Hrest].
  destruct rest as [|piece' rest].
  - simpl. by apply split_no_separator.
  - change (join (String sep "") (piece :: piece' :: rest))
      with (piece +:+ String sep (join (String sep "") (piece' :: rest))).
    rewrite split_at_separator by done. by rewrite IH.
Qed.

Lemma split_pieces_clean (sep : ascii) (s : string) :
  Forall (λ piece, occurs sep piece = false) (split sep s).
Proof.
  induction s as [|c s IH]; simpl; [by repeat constructor|].
  case_bool_decide as Hc; [by constructor|].
  pose proof (split_nonempty sep s) as Hne.
  destruct (split sep s) as [|piece rest]; [done|].
  apply Forall_cons in IH as [Hpiece Hrest]. constructor; [|done].
  simpl. by rewrite bool_decide_eq_false_2.
Qed.

Lemma occurs_app (c : ascii) (s1 s2 : string) :
  occurs c (s1 +:+ s2) = occurs c s1 || occurs c s2.
Proof.
  induction s1 as [|c' s1 IH]; [reflexivity|].
  change (occurs c (String c' (s1 +:+ s2))
          = occurs c (String c' s1) || occurs c s2).
  simpl. by rewrite IH, orb_assoc.
Qed.

(** X12.  Splitting a text at a separator and joining the pieces with it
    gives the text back, and no piece holds the separator; joining pieces
    that do not hold the separator and splitting gives the pieces back.  So
    the [+] of a text and of the array split from another text at its commas
    is just the two texts run together, as on lines 262 to 268, where
    [WITH_IP] comes out as one string. *)
Theorem split_join_round_trips :
  (∀ (sep : ascii) (s : string),
     join (String sep "") (split sep s) = s ∧
     split sep s ≠ [] ∧
     Forall (λ piece, occurs sep piece = false) (split sep s)) ∧
  (∀ (sep : ascii) (pieces : list string),
     pieces ≠ [] → Forall (λ piece, occurs sep piece = false) pieces →
     split sep (join (String sep "") pieces) = pieces) ∧
  (∀ text s : string, text +:+ join "," (split "," s) = text +:+ s).
Proof.
  split; [|split].
  - intros sep s. split; [apply join_split|].
    split; [apply split_nonempty|apply split_pieces_clean].
  - apply split_join.
  - intros text s. by rewrite (join_split "," s).
Qed.

Lemma append_assoc_plain (s1 s2 s3 : string) :
  (s1 +:+ s2) +:+ s3 = s1 +:+ s2 +:+ s3.
Proof.
  induction s1 as [|c s1 IH]; [reflexivity|].
  change (String c ((s1 +:+ s2) +:+ s3) = String c (s1 +:+ s2 +:+ s3)).
  by rewrite IH.
Qed.

Lemma parse_line_of (f c n : string) :
  occurs "|" f = false → occurs "|" c = false → occurs "|" n = false →
  Countries.parse_line (Countries.line_of f c n)
  = Countries.mkCountry (Some f) (Some c) (Some n).
Proof.
  intros Hf Hc Hn. unfold Countries.parse_line, Countries.line_of.
  change (f +:+ "|" +:+ c +:+ "|" +:+ n)
    with (f +:+ String "|" (c +:+ String "|" n)).
  rewrite split_at_separator by done. rewrite split_at_separator by done.
  by rewrite split_no_separator.
Qed.

Lemma line_of_one_line (f c n : string) :
  occurs Countries.LF f = false → occurs Countries.LF c = false →
  occurs Countries.LF n = false →
  occurs Countries.LF (Countries.line_of f c n) = false.
Proof.
  intros Hf Hc Hn. unfold Countries.line_of.
  rewrite !occurs_app, Hf, Hc, Hn. reflexivity.
Qed.

(** X13.  Parsing is the inverse of writing the table: for records whose
    fields hold no bar and no line feed, at least one of them, the text made
    of their lines [flag|code|name] joined by line feeds parses to these
    records, in order, with all three fields defined. *)
Theorem parse_written_table (records : list (string * string * string)) :
  records ≠ [] → Forall Countries.fits records →
  Countries.parse
    (join (String Countries.LF "")
       ((λ r, Countries.line_of r.1.1 r.1.2 r.2) <$> records))
  = (λ r, Countries.mkCountry (Some r.1.1) (Some r.1.2) (Some r.2)) <$> records.
Proof.
  intros Hne Hfit. unfold Countries.parse. rewrite split_join.
  - rewrite <- list_fmap_compose. apply Forall_fmap_ext_1.
    eapply Forall_impl; [exact Hfit|]. intros [[f c] n] (Hf & Hc & Hn & _). simpl.
    by apply parse_line_of.
  - by destruct records.
  - apply Forall_fmap. eapply Forall_impl; [exact Hfit|].
    intros [[f c] n] (_ & _ & _ & Hf & Hc & Hn). simpl.
    by apply line_of_one_line.
Qed.

Lemma length_split (sep : ascii) (s : string) :
  length (split sep s) = S (count sep s).
Proof.
  induction s as [|c s IH]; [reflexivity|]. simpl.
  case_bool_decide as Hc.
  - simpl. by rewrite IH.
  - pose proof (split_nonempty sep s) as Hne.
    destruct (split sep s) as [|piece rest]; [done|]. simpl in *. done.
Qed.

Lemma split_trailing_separator (sep : ascii) (text : string) :
  split sep (text +:+ String sep "") = (split sep text ++ [""])%list.
Proof.
  induction text as [|c text IH].
  - simpl. by rewrite bool_decide_eq_true_2.
  - change (String c text +:+ String sep "")
      with (String c (text +:+ String sep "")).
    simpl split. rewrite IH. case_bool_decide; [done|].
    pose proof (split_nonempty sep text) as Hne.
    by destruct (split sep text).
Qed.

(** X14.  The edges of the parser.  It yields one record per line, one more
    than the text has line feeds, so never none: the empty text gives one
    record whose flag is the empty text and whose code and name are
    undefined, and a line feed at the end of a text adds such a record after
    the records of the text.
    A line without a bar gives a record made of a flag alone; pieces after
    the third are dropped. *)
Theorem parse_edges :
  (∀ text : string,
     length (Countries.parse text) = S (count Countries.LF text)) ∧
  Countries.parse "" = [Countries.mkCountry (Some "") None None] ∧
  (∀ text : string,
     Countries.parse (text +:+ String Countries.LF "")
     = (Countries.parse text ++ [Countries.mkCountry (Some "") None None])%list) ∧
  (∀ x : string, occurs "|" x = false →
     Countries.parse_line x = Countries.mkCountry (Some x) None None) ∧
  (∀ f c n more : string,
     occurs "|" f = false → occurs "|" c = false → occurs "|" n = false →
     Countries.parse_line (Countries.line_of f c n +:+ "|" +:+ more)
     = Countries.mkCountry (Some f) (Some c) (Some n)).
Proof.
  split; [|split; [|split; [|split]]].
  - intros text. unfold Countries.parse. by rewrite length_fmap, length_split.
  - reflexivity.
  - intros text. unfold Countries.parse.
    by rewrite split_trailing_separator, fmap_app.
  - intros x Hx. unfold Countries.parse_line. by rewrite split_no_separator.
  - intros f c n more Hf Hc Hn. unfold Countries.parse_line, Countries.line_of.
    rewrite !append_assoc_plain.
    change (f +:+ "|" +:+ c +:+ "|" +:+ n +:+ "|" +:+ more)
      with (f +:+ String "|" (c +:+ String "|" (n +:+ String "|" more))).
    by rewrite !split_at_separator.
Qed.

Lemma find_code_sound (c : string) (l : list Countries.country)
    (r : Countries.country) :
  Countries.find_code c l = Some r → r ∈ l ∧ Countries.code r = Some c.
Proof.
  induction l as [|r' l IH]; simpl; [discriminate|].
  case_bool_decide as Hcode.
  - intros [= <-]. split; [by left|done].
  - intros Hr. destruct (IH Hr) as [Hin Heq]. split; [by right|done].
Qed.

Lemma find_code_complete (c : string) (l : list Countries.country)
    (r : Countries.country) :
  NoDup (Countries.code <$> l) → r ∈ l → Countries.code r = Some c →
  Countries.find_code c l = Some r.
Proof.
  induction l as [|r' l IH]; intros Hnd Hin Hc; [by apply elem_of_nil in Hin|].
  simpl in Hnd. apply NoDup_cons in Hnd as [Hfresh Hnd]. simpl.
  apply elem_of_cons in Hin as [->|Hin].
  - by rewrite bool_decide_eq_true_2.
  - rewrite bool_decide_eq_false_2; [by apply IH|].
    intros Hc'. apply Hfresh. rewrite Hc', <- Hc. by apply list_elem_of_fmap_2.
Qed.

(** X15.  The table [ALL] has 257 records, each with a flag, a name and a
    code of two characters, no two records with the same code.  So the lookup
    that the [Country] component makes finds, for the code of a record, that
    record, finds only records of the table with the code asked for, and
    finds nothing for the empty code.  The text [WITH_IP] holds 240 codes
    between its commas, each of them the code of a record of [ALL]. *)
Theorem countries_lookup :
  length Countries.ALL = 257%nat ∧
  Forall (λ r, truthy (Countries.flag r) = true ∧
               truthy (Countries.name r) = true ∧
               (String.length <$> Countries.code r) = Some 2%nat)
         Countries.ALL ∧
  NoDup (Countries.code <$> Countries.ALL) ∧
  (∀ r : Countries.country, r ∈ Countries.ALL →
     ∃ c : string, Countries.code r = Some c ∧ Countries.country_of c = Some r) ∧
  (∀ (c : string) (r : Countries.country),
     Countries.country_of c = Some r →
     r ∈ Countries.ALL ∧ Countries.code r = Some c ∧ c ≠ "") ∧
  Countries.country_of "" = None ∧
  length (split "," Countries.WITH_IP) = 240%nat ∧
  Forall (λ c, is_Some (Countries.country_of c)) (split "," Countries.WITH_IP).
Proof.
  assert (Hshape : Forall (λ r, truthy (Countries.flag r) = true ∧
               truthy (Countries.name r) = true ∧
               (String.length <$> Countries.code r) = Some 2%nat)
         Countries.ALL).
  { apply (bool_decide_unpack _). vm_compute. reflexivity. }
  assert (Hnd : NoDup (Countries.code <$> Countries.ALL)).
  { apply (bool_decide_unpack _). vm_compute. reflexivity. }
  split; [vm_compute; reflexivity|]. split; [exact Hshape|]. split; [exact Hnd|].
  split; [|split; [|split; [|split]]].
  - intros r Hin.
    destruct (proj1 (Forall_forall _ _) Hshape r Hin) as (_ & _ & Hlen).
    destruct (Countries.code r) as [c|] eqn:Hc; [|discriminate].
    exists c. split; [done|]. unfold Countries.country_of.
    assert (Hc' : truthy (Some c) = true).
    { simpl. rewrite bool_decide_eq_false_2; [done|]. intros ->. discriminate. }
    rewrite Hc'. by apply find_code_complete.
  - intros c r. unfold Countries.country_of.
    destruct (truthy (Some c)) eqn:Htruthy; [|discriminate].
    intros [Hin Hc]%find_code_sound. split; [done|]. split; [done|].
    intros ->. discriminate.
  - reflexivity.
  - vm_compute. reflexivity.
  - apply (bool_decide_unpack _). vm_compute. reflexivity.
Qed.

(** * Properties of the NAT helper *)

Lemma find_Some {T : Type} (p : T → bool) (l : list T) (x : T) :
  Upnp.find p l = Some x → x ∈ l ∧ p x = true.
Proof.
  induction l as [|y l IH]; simpl; [discriminate|].
  destruct (p y) eqn:Hy.
  - intros [= <-]. split; [by left|done].
  - intros Hx. destruct (IH Hx) as [Hin Hp]. split; [by right|done].
Qed.

Lemma find_None {T : Type} (p : T → bool) (l : list T) :
  Upnp.find p l = None → ∀ x : T, x ∈ l → p x = false.
Proof.
  induction l as [|y l IH]; simpl; [by intros _ x Hx%elem_of_nil|].
  destruct (p y) eqn:Hy; [discriminate|].
  intros Hnone x [->|Hin]%elem_of_cons; [done|by apply IH].
Qed.

(** X16.  The port that [getNatInfo] reports as [internalPort] is that of a
    server that is listening, the https server first: it is the https port
    whenever https listens on a port other than 0, and otherwise what the
    http server gives, its port if it listens, [false] or undefined if not.
    A number is never reported for a server that is not listening. *)
Theorem internal_port_prefers_https (status : option Upnp.ServerStatus) :
  (∀ sv : Upnp.Server,
     status ≫= Upnp.https = Some sv → Upnp.listening sv = true →
     Upnp.port sv ≠ 0%Z →
     Upnp.internal_port status = Upnp.Num (Upnp.port sv)) ∧
  (Upnp.truthy_value (Upnp.listening_port (status ≫= Upnp.https)) = false →
   Upnp.internal_port status = Upnp.listening_port (status ≫= Upnp.http)) ∧
  (∀ n : Z, Upnp.internal_port status = Upnp.Num n →
     ∃ sv : Upnp.Server,
       (status ≫= Upnp.https = Some sv ∨ status ≫= Upnp.http = Some sv) ∧
       Upnp.listening sv = true ∧ Upnp.port sv = n).
Proof.
  unfold Upnp.internal_port, Upnp.or_value. split; [|split].
  - intros sv -> Hl Hp. simpl. rewrite Hl. simpl.
    by rewrite bool_decide_eq_false_2.
  - by intros ->.
  - intros n.
    destruct (status ≫= Upnp.https) as [sv|] eqn:Hs; simpl.
    + destruct (Upnp.listening sv) eqn:Hl; simpl.
      * case_bool_decide as Hp; simpl.
        -- destruct (status ≫= Upnp.http) as [sv'|] eqn:Hs'; simpl; [|discriminate].
           destruct (Upnp.listening sv') eqn:Hl'; [|discriminate].
           intros [= <-]. exists sv'. by eauto.
        -- intros [= <-]. exists sv. by eauto.
      * destruct (status ≫= Upnp.http) as [sv'|] eqn:Hs'; simpl; [|discriminate].
        destruct (Upnp.listening sv') eqn:Hl'; [|discriminate].
        intros [= <-]. exists sv'. by eauto.
    + destruct (status ≫= Upnp.http) as [sv'|] eqn:Hs'; simpl; [|discriminate].
      destruct (Upnp.listening sv') eqn:Hl'; [|discriminate].
      intros [= <-]. exists sv'. by eauto.
Qed.

(** X17.  What [getNatInfo] reports about the mapping.  Without a gateway it
    reports no mappings, no mapping of its own, no external port and no
    external address, and the gateway address is that of the routing table.
    A mapping it reports as [mapped] is one of the router's mappings, the
    first that either points at the local address and internal port or is
    described as hfs, and [externalPort] is its public port; a mapping
    described as hfs is enough for one to be reported, wherever it points. *)
Theorem nat_info_mapping (q : Upnp.Probes) :
  (Upnp.probe_gateway q = None →
   Upnp.upnp (Upnp.getNatInfo q) = false ∧
   Upnp.mappings (Upnp.getNatInfo q) = None ∧
   Upnp.mapped (Upnp.getNatInfo q) = None ∧
   Upnp.externalPort (Upnp.getNatInfo q) = None ∧
   Upnp.externalIp (Upnp.getNatInfo q) = None ∧
   Upnp.gatewayIp (Upnp.getNatInfo q) = Upnp.probe_route q) ∧
  (∀ m : Upnp.Mapping, Upnp.mapped (Upnp.getNatInfo q) = Some m →
     ∃ (before after : list Upnp.Mapping),
       Upnp.mappings (Upnp.getNatInfo q) = Some (before ++ m :: after)%list ∧
       Forall (λ x, Upnp.is_mapped (Upnp.localIp (Upnp.getNatInfo q))
                      (Upnp.internalPort (Upnp.getNatInfo q)) x = false) before ∧
       Upnp.is_mapped (Upnp.localIp (Upnp.getNatInfo q))
         (Upnp.internalPort (Upnp.getNatInfo q)) m = true ∧
       Upnp.externalPort (Upnp.getNatInfo q)
         = Some (Upnp.endpoint_port (Upnp.public m))) ∧
  (∀ (l : list Upnp.Mapping) (m : Upnp.Mapping),
     Upnp.mappings (Upnp.getNatInfo q) = Some l → m ∈ l →
     Upnp.description m = "hfs" →
     is_Some (Upnp.mapped (Upnp.getNatInfo q))).
Proof.
  split; [|split].
  - intros Hnone. unfold Upnp.getNatInfo. rewrite Hnone. simpl.
    repeat split; try done.
  - intros m. unfold Upnp.getNatInfo. simpl.
    set (local := Upnp.or_text _ _). set (internal := Upnp.internal_port _).
    set (l := match Upnp.probe_gateway q with
              | Some _ => Upnp.probe_mappings q
              | None => None
              end).
    intros Hfind. rewrite Hfind. simpl.
    destruct l as [l|]; [|discriminate]. simpl in Hfind.
    assert (Hsplit : ∃ before after : list Upnp.Mapping,
              l = (before ++ m :: after)%list ∧
              Forall (λ x, Upnp.is_mapped local internal x = false) before).
    { clear -Hfind. induction l as [|y l IH]; simpl in Hfind; [discriminate|].
      destruct (Upnp.is_mapped local internal y) eqn:Hy.
      - injection Hfind as ->. exists [], l. split; [done|constructor].
      - destruct (IH Hfind) as (before & after & -> & Hall).
        exists (y :: before), after. split; [done|]. by constructor. }
    destruct Hsplit as (before & after & -> & Hall).
    exists before, after. split; [done|]. split; [done|]. split; [|done].
    by apply find_Some in Hfind as [_ Hp].
  - intros l m. unfold Upnp.getNatInfo. simpl.
    set (local := Upnp.or_text _ _). set (internal := Upnp.internal_port _).
    intros -> Hin Hd. simpl.
    destruct (Upnp.find (Upnp.is_mapped local internal) l) as [x|] eqn:Hfind;
      [by eexists|].
    pose proof (find_None _ _ Hfind m Hin) as Hm.
    unfold Upnp.is_mapped in Hm. rewrite (bool_decide_eq_true_2 _ Hd) in Hm.
    by rewrite orb_true_r in Hm.
Qed.

(** X18.  The requests of [map_port].  Without a gateway address it throws
    the api error and asks nothing of the router.  With one, it asks first
    for the removal of the mapping that [getNatInfo] reported, if any, with
    that mapping's ports, and then, only if [external] is truthy and the
    removal did not fail, for the creation of a mapping from [external] to
    the internal port; it asks nothing else.  It resolves exactly when every
    request it sent resolved. *)
Theorem map_port_requests (unavailable : Z) (info : Upnp.NatInfo)
    (external : Upnp.value) (router : Upnp.request → option Upnp.failure) :
  (truthy (Upnp.gatewayIp info) = false →
   Upnp.map_port unavailable info external router
   = (Some (Upnp.ApiError unavailable "upnp failed"), [])) ∧
  (truthy (Upnp.gatewayIp info) = true →
   ∃ removal creation : list Upnp.request,
     (Upnp.map_port unavailable info external router).2
       = (removal ++ creation)%list ∧
     removal = match Upnp.mapped info with
               | Some m => [Upnp.RemoveMapping
                              (Upnp.endpoint_port (Upnp.private m))
                              (Upnp.endpoint_port (Upnp.public m))]
               | None => []
               end ∧
     (creation = [] ∨
      creation = [Upnp.CreateMapping (Upnp.internalPort info) external] ∧
      Upnp.truthy_value external = true ∧
      Forall (λ x, router x = None) removal) ∧
     (Upnp.truthy_value external = true →
      Forall (λ x, router x = None) removal →
      creation = [Upnp.CreateMapping (Upnp.internalPort info) external]) ∧
     ((Upnp.map_port unavailable info external router).1 = None ↔
      Forall (λ x, router x = None) (removal ++ creation))).
Proof.
  unfold Upnp.map_port. split.
  - intros ->. reflexivity.
  - intros ->. simpl negb. cbv iota.
    set (removal := match Upnp.mapped info with
                    | Some m => [Upnp.RemoveMapping
                                   (Upnp.endpoint_port (Upnp.private m))
                                   (Upnp.endpoint_port (Upnp.public m))]
                    | None => []
                    end).
    assert (Hhead : (∃ f, head (omap router removal) = Some f ∧
                          ¬ Forall (λ x, router x = None) removal) ∨
                    (head (omap router removal) = None ∧
                     Forall (λ x, router x = None) removal)).
    { subst removal. destruct (Upnp.mapped info) as [m|]; simpl.
      - destruct (router _) as [f|] eqn:Hr; simpl.
        + left. exists f. split; [done|].
          intros [Hx _]%Forall_cons. congruence.
        + right. split; [done|]. by repeat constructor.
      - right. split; [done|constructor]. }
    destruct Hhead as [(f & -> & Hfail) | (-> & Hok)].
    + exists removal, []. simpl. rewrite app_nil_r.
      split; [done|]. split; [done|]. split; [by left|].
      split; [by intros _ Hall|]. split; [discriminate|done].
    + destruct (Upnp.truthy_value external) eqn:Hext.
      * exists removal, [Upnp.CreateMapping (Upnp.internalPort info) external].
        simpl. split; [done|]. split; [done|]. split; [by right|].
        split; [done|]. split.
        -- intros Hr. apply Forall_app. split; [done|]. by repeat constructor.
        -- intros [_ Hc]%Forall_app. by apply Forall_cons in Hc as [Hc _].
      * exists removal, []. simpl. rewrite app_nil_r.
        split; [done|]. split; [done|]. split; [by left|].
        split; [discriminate|]. done.
Qed.

Lemma chunk2_concat {T : Type} (l : list T) : concat (Upnp.chunk2 l) = l.
Proof.
  assert (Hboth : concat (Upnp.chunk2 l) = l ∧
                  ∀ x : T, concat (Upnp.chunk2 (x :: l)) = x :: l).
  { induction l as [|y l [IH1 IH2]]; [done|]. split; [apply IH2|].
    intros x. simpl. by rewrite IH1. }
  apply Hboth.
Qed.

Lemma elem_of_concat_iff {T : Type} (x : T) (ls : list (list T)) :
  x ∈ concat ls ↔ ∃ l : list T, x ∈ l ∧ l ∈ ls.
Proof.
  induction ls as [|l ls IH]; simpl.
  - split; [by intros ?%elem_of_nil|]. by intros (l & _ & ?%elem_of_nil).
  - rewrite elem_of_app, IH. split.
    + intros [Hx|(l' & Hx & Hl)].
      * exists l. split; [done|by left].
      * exists l'. split; [done|by right].
    + intros (l' & Hx & [->|Hl]%elem_of_cons); [by left|].
      right. by exists l'.
Qed.

Lemma chunk2_elem {T : Type} (l chunk : list T) (x : T) :
  chunk ∈ Upnp.chunk2 l → x ∈ chunk → x ∈ l.
Proof.
  intros Hc Hx. rewrite <- (chunk2_concat l).
  apply elem_of_concat_iff. by exists chunk.
Qed.

Lemma fulfilled_elem {T : Type} (l : list (option T)) (x : T) :
  x ∈ Upnp.fulfilled l ↔ Some x ∈ l.
Proof.
  unfold Upnp.fulfilled. rewrite list_elem_of_omap. split.
  - intros (y & Hy & Heq). unfold id in Heq. by subst y.
  - intros Hx. by exists (Some x).
Qed.

Lemma fulfilled_nil {T : Type} (l : list (option T)) :
  Upnp.fulfilled l = [] ↔ Forall (λ x, x = None) l.
Proof.
  unfold Upnp.fulfilled. induction l as [|[x|] l IH]; simpl.
  - split; [constructor|done].
  - split; [discriminate|]. by intros [? _]%Forall_cons.
  - rewrite IH. split; [by constructor|]. by intros [_ ?]%Forall_cons.
Qed.

Lemma public_ip_of_cases (trim : string → string)
    (chunks : list (list (option (option string)))) (r : option string) :
  r ∈ Upnp.public_ip_of trim chunks →
  (∃ (urls : list (option (option string))) (response : option (option string)),
     urls ∈ chunks ∧ response ∈ urls ∧
     Upnp.public_ip_answer trim response = Some r) ∨
  (r = None ∧
   ∀ urls : list (option (option string)), urls ∈ chunks →
     Forall (λ response, Upnp.public_ip_answer trim response = None) urls).
Proof.
  induction chunks as [|urls chunks IH]; simpl.
  - intros ->%list_elem_of_singleton. right. split; [done|].
    by intros urls Hin%elem_of_nil.
  - destruct (Upnp.fulfilled (Upnp.public_ip_answer trim <$> urls))
      as [|ip ips] eqn:Hful.
    + intros Hr. destruct (IH Hr) as [(urls' & response & Hin & Hresp & Ha)
                                    | (-> & Hall)].
      * left. exists urls', response. split; [by right|done].
      * right. split; [done|]. intros urls' [->|Hin]%elem_of_cons; [|by apply Hall].
        apply fulfilled_nil in Hful. by apply Forall_fmap in Hful.
    + intros Hr. rewrite <- Hful in Hr. apply fulfilled_elem in Hr.
      apply list_elem_of_fmap in Hr as (response & Ha & Hresp).
      left. exists urls, response. split; [by left|done].
Qed.

(** X19.  How [getPublicIp] can end.  It rejects exactly when
    [getProjectInfo], awaited on line 94 outside the [try], rejects, and then
    with that error.  Otherwise it returns, whatever the services do: what it
    returns is what one of the services answered, trimmed, a text that passed
    the test of line 99, or undefined: undefined when every service failed,
    but also when a service answered without a body, for the test lets an
    undefined [ip] through.  The services are asked two at a time, and a
    later pair is asked only when both of the pair before it failed. *)
Theorem getPublicIp_endings (trim : string → string) :
  (∀ e : Upnp.failure, Upnp.getPublicIp trim (inl e) = [Upnp.Threw e]) ∧
  (∀ (project : Upnp.failure + list (option (option string))) (e : Upnp.failure),
     Upnp.Threw e ∈ Upnp.getPublicIp trim project → project = inl e) ∧
  (∀ services : list (option (option string)),
     Upnp.getPublicIp trim (inr services) ≠ [] ∧
     ∀ ending : Upnp.ip_ending, ending ∈ Upnp.getPublicIp trim (inr services) →
       ∃ r : option string, ending = Upnp.Gave r ∧
         ((∃ response : option (option string),
             response ∈ services ∧
             Upnp.public_ip_answer trim response = Some r) ∨
          (r = None ∧
           Forall (λ response, Upnp.public_ip_answer trim response = None)
                  services))) ∧
  (∀ (response : option (option string)) (ip : string),
     Upnp.public_ip_answer trim response = Some (Some ip) →
     Upnp.some_char Upnp.ip_char ip = true ∧
     ∃ body : string, response = Some (Some body) ∧ ip = trim body) ∧
  Upnp.public_ip_answer trim (Some None) = Some None ∧
  (∀ (first second : option (option string))
     (rest : list (option (option string))),
     Upnp.getPublicIp trim (inr (first :: second :: rest))
     = match Upnp.fulfilled [Upnp.public_ip_answer trim first;
                             Upnp.public_ip_answer trim second] with
       | [] => Upnp.getPublicIp trim (inr rest)
       | ip :: ips => Upnp.Gave <$> ip :: ips
       end).
Proof.
  split; [|split; [|split; [|split; [|split]]]].
  - reflexivity.
  - intros [e'|services] e; simpl.
    + by intros [= ->]%list_elem_of_singleton.
    + intros (r & Hr & _)%list_elem_of_fmap. discriminate.
  - intros services. simpl. split.
    + intros Hnil%fmap_nil_inv. revert Hnil.
      generalize (Upnp.chunk2 services). intros chunks.
      induction chunks as [|urls chunks IH]; simpl; [done|].
      by destruct (Upnp.fulfilled _).
    + intros ending (r & -> & Hr)%list_elem_of_fmap. exists r. split; [done|].
      destruct (public_ip_of_cases trim _ r Hr)
        as [(urls & response & Hin & Hresp & Ha) | (-> & Hall)].
      * left. exists response. split; [|done]. by eapply chunk2_elem.
      * right. split; [done|]. apply Forall_forall. intros response Hin.
        rewrite <- (chunk2_concat services) in Hin.
        apply elem_of_concat_iff in Hin as (urls & Hresp & Hurls).
        by apply (proj1 (Forall_forall _ _) (Hall urls Hurls)).
  - intros [[body|]|] ip; unfold Upnp.public_ip_answer; simpl; try discriminate.
    destruct (Upnp.looks_like_ip (Some (trim body))) eqn:Hlook; [|discriminate].
    intros [= <-]. split; [exact Hlook|]. by exists body.
  - reflexivity.
  - intros first second rest.
    set (answers := Upnp.fulfilled [Upnp.public_ip_answer trim first;
                                    Upnp.public_ip_answer trim second]).
    change (Upnp.getPublicIp trim (inr (first :: second :: rest)))
      with (Upnp.Gave <$> match answers with
                          | [] => Upnp.public_ip_of trim (Upnp.chunk2 rest)
                          | ip :: ips => ip :: ips
                          end).
    by destruct answers.
Qed.

Lemma service_answer_sound (svc : Upnp.Service) (success : bool) (name : string) :
  Upnp.service_answer svc = Some (success, name) →
  name = Upnp.service svc ∧
  ∃ text : string,
    Upnp.parsed svc = Some (Some text) ∧ text ≠ "" ∧
    Upnp.regexpSuccess svc text = success ∧
    Upnp.regexpFailure svc text = negb success.
Proof.
  unfold Upnp.service_answer.
  destruct (Upnp.parsed svc) as [[text|]|]; simpl; try discriminate.
  case_bool_decide as Htext; simpl; [discriminate|].
  case_bool_decide as Hsame; [discriminate|].
  intros [= <- <-]. split; [done|]. exists text. repeat split; try done.
  destruct (Upnp.regexpSuccess svc text), (Upnp.regexpFailure svc text); done.
Qed.

(** X20.  How [check_server] can end.  Without a public address it returns,
    and does not throw, the api error; with no service to ask it returns the
    other api error.  Otherwise only the first two services of the shuffled
    list count: it resolves with the verdict of one of them, a service whose
    answer yielded a non-empty text on which exactly one of its two regular
    expressions matched, [success] telling which; and when both fail it
    rejects, whatever the services after them would have answered. *)
Theorem check_server_endings (unavailable : Z) (info : Upnp.NatInfo)
    (services : list Upnp.Service) :
  (truthy (Upnp.publicIp info) = false →
   Upnp.check_server unavailable info services
   = [Upnp.Returns (Upnp.ApiError unavailable "cannot detect public ip")]) ∧
  (truthy (Upnp.publicIp info) = true →
   Upnp.check_server unavailable info []
   = [Upnp.Returns (Upnp.ApiError unavailable
                      "no service available to detect upnp mapping")] ∧
   (∀ (first second : Upnp.Service) (rest : list Upnp.Service),
      Upnp.check_server unavailable info (first :: second :: rest)
      = Upnp.check_server unavailable info [first; second]) ∧
   (∀ (first second : Upnp.Service) (rest : list Upnp.Service),
      Upnp.service_answer first = None → Upnp.service_answer second = None →
      Upnp.check_server unavailable info (first :: second :: rest)
      = [Upnp.Rejects Upnp.AggregateError]) ∧
   (∀ (success : bool) (name : string),
      Upnp.Resolves success name ∈ Upnp.check_server unavailable info services →
      ∃ svc : Upnp.Service,
        svc ∈ take 2 services ∧ Upnp.service svc = name ∧
        ∃ text : string,
          Upnp.parsed svc = Some (Some text) ∧ text ≠ "" ∧
          Upnp.regexpSuccess svc text = success ∧
          Upnp.regexpFailure svc text = negb success)).
Proof.
  unfold Upnp.check_server. split.
  - intros ->. reflexivity.
  - intros ->. simpl negb. cbv iota.
    split; [reflexivity|]. split; [reflexivity|]. split.
    + intros first second rest H1 H2. simpl. by rewrite H1, H2.
    + intros success name.
      assert (Hfirst : ∀ chunk : list Upnp.Service,
                Upnp.Resolves success name
                ∈ match Upnp.fulfilled (Upnp.service_answer <$> chunk) with
                  | [] => [Upnp.Rejects Upnp.AggregateError]
                  | answers => (λ a, Upnp.Resolves a.1 a.2) <$> answers
                  end →
                ∃ svc : Upnp.Service,
                  svc ∈ chunk ∧ Upnp.service_answer svc = Some (success, name)).
      { intros chunk.
        destruct (Upnp.fulfilled (Upnp.service_answer <$> chunk))
          as [|a answers] eqn:Hful.
        - intros Hin%list_elem_of_singleton. discriminate.
        - rewrite <- Hful. intros Hin.
          apply list_elem_of_fmap in Hin as ([b n] & [= <- <-] & Hin).
          apply fulfilled_elem in Hin.
          apply list_elem_of_fmap in Hin as (svc & Ha & Hsvc). by exists svc. }
      destruct services as [|first [|second rest]]; simpl.
      * intros Hin%list_elem_of_singleton. discriminate.
      * intros Hin. destruct (Hfirst [first] Hin) as (svc & Hsvc & Ha).
        exists svc. split; [done|]. apply service_answer_sound in Ha as [-> Ht].
        by split.
      * intros Hin. destruct (Hfirst [first; second] Hin) as (svc & Hsvc & Ha).
        exists svc. split; [done|]. apply service_answer_sound in Ha as [-> Ht].
        by split.
Qed.

(** * The statements on the concrete instance *)

Import Fixture.

Example alice_verifier :
  srp alice = Some ("7|" +:+ pretty (verifier_of (private "alice" "secret" 7))).
Proof. vm_compute. reflexivity. Qed.

Lemma srpCheck_verdict_witness :
  let later := advance 10000 (settle 0 (srpCheck_call "alice" "secret" initial).2) in
  (srpCheck "alice" "secret" initial).1 = Some (Ok (Some alice)) ∧
  (srpCheck "alice" "secret" later).1 = Some (Ok (Some alice)) ∧
  handshakes (srpCheck "alice" "secret" later).2 = 1%nat ∧
  cache later !! fingerprint "alice" "secrat" alice = None ∧
  (srpCheck "alice" "secrat" later).1 = Some (Ok None) ∧
  (srpCheck "alice" "secrat" (srpCheck "alice" "secrat" later).2).1
    = Some (Ok None) ∧
  (srpCheck "nobody" "secret" later).1 = Some (Ok None).
Proof.
  intros later.
  assert (Hacc : getAccount "alice" = Some alice) by reflexivity.
  assert (Hp : "secret" ≠ "") by discriminate.
  assert (Hp' : "secrat" ≠ "") by discriminate.
  assert (Hx : exchange "alice" "secret" alice = Ok true) by reflexivity.
  assert (Hx' : exchange "alice" "secrat" alice = Ok false) by reflexivity.
  assert (Hmiss : cache initial !! fingerprint "alice" "secret" alice = None)
    by reflexivity.
  assert (Hmiss' : cache later !! fingerprint "alice" "secrat" alice = None)
    by (vm_compute; reflexivity).
  assert (Hsteps : rtc step (srpCheck_call "alice" "secret" initial).2 later).
  { unfold later. eapply rtc_l; [apply (step_settle 0)|].
    apply rtc_once, step_advance. lia. }
  assert (Hk : cache later !! fingerprint "alice" "secret" alice
               = Some (length (promises initial)))
    by (vm_compute; reflexivity).
  destruct (srpCheck_verdict "alice" "secret") as (_ & Hright & _).
  destruct (Hright initial alice true Hacc Hp Hx Hmiss) as [Hfirst Hnext].
  destruct (Hnext later Hsteps Hk) as [Hsecond Hnone].
  destruct (srpCheck_verdict "alice" "secrat") as (_ & Hwrong & Hcached).
  destruct (Hwrong later alice false Hacc Hp' Hx' Hmiss') as [Hrejected _].
  split; [exact Hfirst|]. split; [exact Hsecond|].
  split; [rewrite Hnone; vm_compute; reflexivity|]. split; [exact Hmiss'|].
  split; [exact Hrejected|]. split.
  - apply (Hcached _ alice 1%nat 0%Z Hacc eq_refl Hp');
      vm_compute; reflexivity.
  - apply (proj1 (srpCheck_verdict "nobody" "secret")). reflexivity.
Defined.

(** C1, the claim as stated refuted.  Two accounts, [ab] and [a], hold the
    same [srp]; the password [c] matches for [ab] and [bc] does not match for
    [a], but both pairs run together to the same text and so to the same key.
    After [ab] has been accepted with [c], the call for [a] with [bc] resolves
    to the account of [a]; and after [a] has been refused with [bc], the call
    for [ab] with [c] resolves to undefined. *)
Lemma srpCheck_shared_key_counterexample :
  exchange "ab" "c" Shared.ab = Ok true ∧
  exchange "a" "bc" Shared.a = Ok false ∧
  fingerprint "ab" "c" Shared.ab = fingerprint "a" "bc" Shared.a ∧
  (srpCheck (store := Shared.perm) "a" "bc"
     (srpCheck (store := Shared.perm) "ab" "c" initial).2).1
  = Some (Ok (Some Shared.a)) ∧
  (srpCheck (store := Shared.perm) "ab" "c"
     (srpCheck (store := Shared.perm) "a" "bc" initial).2).1
  = Some (Ok None).
Proof. vm_compute. repeat split; reflexivity. Qed.

Lemma simultaneous_calls_share_one_handshake_witness :
  (0 < 3)%nat ∧ getAccount "alice" = Some alice ∧
  truthy (srp alice) = true ∧ "secret" ≠ "" ∧
  cache initial !! fingerprint "alice" "secret" alice = None ∧
  handshakes (simultaneous 3 "alice" "secret" initial).2 = 1%nat ∧
  length (simultaneous 3 "alice" "secret" initial).1 = 3%nat.
Proof.
  assert (Hn : (0 < 3)%nat) by lia.
  assert (Hacc : getAccount "alice" = Some alice) by reflexivity.
  assert (Hsrp : truthy (srp alice) = true) by reflexivity.
  assert (Hp : "secret" ≠ "") by discriminate.
  assert (Hmiss : cache initial !! fingerprint "alice" "secret" alice = None)
    by reflexivity.
  refine (conj Hn (conj Hacc (conj Hsrp (conj Hp (conj Hmiss _))))).
  destruct (simultaneous_calls_share_one_handshake 3 "alice" "secret" initial
              alice Hn Hacc Hsrp Hp Hmiss) as (Hone & Hlen & _).
  exact (conj Hone Hlen).
Defined.

Lemma srpStep1_failures_witness :
  srpStep1 carol = Throw (ThrowStatus HTTP_NOT_ACCEPTABLE) ∧
  srpStep1 bob = Throw (Error "malformed account") ∧
  srpStep1 dave = Throw (SyntaxError "12x").
Proof.
  split; [|split].
  - apply (proj1 (srpStep1_failures carol)). reflexivity.
  - apply (proj1 (proj2 (srpStep1_failures bob)) "onlysalt");
      [reflexivity|discriminate|right; reflexivity].
  - apply (proj1 (proj2 (proj2 (srpStep1_failures dave))) "12x|34" "12x" "34");
      [reflexivity|reflexivity|reflexivity|discriminate|discriminate|reflexivity].
Defined.

(** C3, the claim as stated refuted.  The account [dave] stores a salt that
    is there and is not a number, [12x], next to the verifier [34]:
    [srpStep1] throws the [SyntaxError] of [BigInt("12x")], not the
    malformed-account error. *)
Lemma srpStep1_non_numeric_counterexample :
  srp dave = Some "12x|34" ∧
  split "|" "12x|34" = ["12x"; "34"] ∧
  srpStep1 dave = Throw (SyntaxError "12x") ∧
  srpStep1 dave ≠ Throw (Error "malformed account").
Proof.
  split; [reflexivity|]. split; [reflexivity|].
  assert (Hthrow : srpStep1 dave = Throw (SyntaxError "12x")) by reflexivity.
  split; [exact Hthrow|]. rewrite Hthrow. discriminate.
Qed.

Lemma srpCheck_returns_early_witness :
  srpCheck_call "nobody" "secret" initial = (Returned None, initial) ∧
  srpCheck_call "carol" "secret" initial = (Returned None, initial) ∧
  srpCheck_call "alice" "" initial = (Returned None, initial).
Proof.
  split; [|split].
  - apply (srpCheck_returns_early "nobody" "secret" initial). left. reflexivity.
  - apply (srpCheck_returns_early "carol" "secret" initial). right. left.
    exists carol. split; reflexivity.
  - apply (srpCheck_returns_early "alice" "" initial). right. right. reflexivity.
Defined.

Lemma busy_reachable : reachable busy.
Proof.
  unfold reachable, busy.
  eapply rtc_r; [|apply step_advance; lia].
  eapply rtc_r; [|apply step_settle].
  apply rtc_once, step_call.
Qed.



Lemma setLoggedIn_binds_identity_witness :
  session anonymous = Some (mkSession None) ∧
  isInvalidated "Alice" (setLoggedIn anonymous (Some "Alice") {[ "Alice"; "bob" ]}).2
    = false ∧
  session (setLoggedIn anonymous (Some "Alice") {[ "Alice"; "bob" ]}).1.2
    = Some (mkSession (Some (normalizeUsername "Alice"))) ∧
  state_account (setLoggedIn anonymous (Some "Alice") {[ "Alice"; "bob" ]}).1.2
    = getAccount "Alice".
Proof.
  assert (Hs : session anonymous = Some (mkSession None)) by reflexivity.
  split; [exact Hs|].
  destruct (setLoggedIn_binds_identity anonymous (mkSession None) "Alice"
              {[ "Alice"; "bob" ]} Hs) as (_ & _ & Hinv & Hname & Hacc).
  exact (conj Hinv (conj Hname Hacc)).
Defined.

Lemma logout_clears_session_only_witness :
  session logged_in = Some (mkSession (Some "alice")) ∧
  session (setLoggedIn logged_in None ∅).1.2 = Some (mkSession None) ∧
  getCurrentUsername (setLoggedIn logged_in None ∅).1.2
    = getCurrentUsername logged_in.
Proof.
  assert (Hs : session logged_in = Some (mkSession (Some "alice"))) by reflexivity.
  split; [exact Hs|].
  destruct (logout_clears_session_only logged_in _ ∅ Hs)
    as (_ & Hsess & _ & _ & Hsame & _).
  exact (conj Hsess Hsame).
Defined.

(** C7, the claim as stated refuted.  In the request in which alice logged
    in, a logout resolves and clears the session, and [getCurrentUsername]
    still returns her name. *)
Lemma logout_keeps_current_username_counterexample :
  session logged_in = Some (mkSession (Some "alice")) ∧
  (setLoggedIn logged_in None ∅).1.1 = Ok () ∧
  session (setLoggedIn logged_in None ∅).1.2 = Some (mkSession None) ∧
  getCurrentUsername (setLoggedIn logged_in None ∅).1.2 = "alice" ∧
  getCurrentUsername (setLoggedIn logged_in None ∅).1.2 ≠ "".
Proof.
  assert (Hname : getCurrentUsername (setLoggedIn logged_in None ∅).1.2 = "alice")
    by reflexivity.
  repeat split; try reflexivity. rewrite Hname. discriminate.
Qed.

Lemma setLoggedIn_without_session_witness :
  session no_session = None ∧
  setLoggedIn no_session (Some "alice") {[ "alice" ]}
    = (Throw (HttpError HTTP_SERVER_ERROR "session"), no_session, {[ "alice" ]}) ∧
  setLoggedIn no_session None {[ "alice" ]}
    = (Throw (HttpError HTTP_SERVER_ERROR "session"), no_session, {[ "alice" ]}).
Proof.
  assert (Hs : session no_session = None) by reflexivity.
  split; [exact Hs|]. split.
  - apply (setLoggedIn_without_session no_session (Some "alice") {[ "alice" ]} Hs).
  - apply (setLoggedIn_without_session no_session None {[ "alice" ]} Hs).
Defined.

Lemma logout_idempotent_witness :
  session anonymous = Some (mkSession None) ∧
  setLoggedIn anonymous None ∅ = (Ok (), anonymous, ∅) ∧
  getCurrentUsername (setLoggedIn anonymous None ∅).1.2 = "".
Proof.
  assert (Hs : session anonymous = Some (mkSession None)) by reflexivity.
  split; [exact Hs|].
  destruct (logout_idempotent anonymous _ ∅ Hs) as (_ & Htwice & Hnoop & _ & Hempty).
  split; [by apply Hnoop|].
  rewrite <- Htwice. by apply Hempty.
Defined.

(** C9, the claim as stated refuted.  In the request in which alice logged
    in, two logouts in a row both resolve, the second changes nothing, and
    [getCurrentUsername] does not return the empty string after them; the
    same on a session without [username] whose context has an account
    attached. *)
Lemma logout_twice_counterexample :
  let once := setLoggedIn logged_in None ∅ in
  let twice := setLoggedIn once.1.2 None once.2 in
  once.1.1 = Ok () ∧ twice.1.1 = Ok () ∧ twice = once ∧
  session once.1.2 = Some (mkSession None) ∧
  getCurrentUsername twice.1.2 = "alice" ∧
  getCurrentUsername twice.1.2 ≠ "".
Proof.
  intros once twice.
  assert (Hname : getCurrentUsername twice.1.2 = "alice") by reflexivity.
  repeat split; try reflexivity. rewrite Hname. discriminate.
Qed.

Lemma setLoggedIn_deletes_literal_name_witness :
  session anonymous = Some (mkSession None) ∧
  normalizeUsername "Alice" ≠ "Alice" ∧
  normalizeUsername "Alice" ∈ ({[ "Alice"; "alice" ]} : gset string) ∧
  normalizeUsername "Alice"
    ∈ (setLoggedIn anonymous (Some "Alice") {[ "Alice"; "alice" ]}).2 ∧
  session (setLoggedIn anonymous (Some "Alice") {[ "Alice"; "alice" ]}).1.2
    = Some (mkSession (Some "alice")).
Proof.
  assert (Hs : session anonymous = Some (mkSession None)) by reflexivity.
  assert (Hne : normalizeUsername "Alice" ≠ "Alice") by discriminate.
  assert (Hin : normalizeUsername "Alice" ∈ ({[ "Alice"; "alice" ]} : gset string)).
  { apply elem_of_union. right. by apply elem_of_singleton. }
  refine (conj Hs (conj Hne (conj Hin _))).
  destruct (setLoggedIn_deletes_literal_name anonymous _ "Alice"
              {[ "Alice"; "alice" ]} Hs) as (_ & Hname & _ & Hkeep).
  split; [by apply Hkeep|exact Hname].
Defined.

(** ** Further statements on the concrete instances *)

Lemma srpStep1_reads_salt_and_verifier_witness :
  srpStep1 (mkAccount "alice" (Some "7|5112011088245402083|left over"))
  = srpStep1 alice ∧
  srpStep1 alice
  = res_bind (step1 "alice" 7%Z 5112011088245402083%Z)
      (λ st, Ok (st, "7", pretty (B st))).
Proof.
  assert (Hs : "7" ≠ "") by discriminate.
  assert (Hv : "5112011088245402083" ≠ "") by discriminate.
  assert (Hzs : BigInt "7" = Some 7%Z) by reflexivity.
  assert (Hzv : BigInt "5112011088245402083" = Some 5112011088245402083%Z)
    by reflexivity.
  destruct (srpStep1_reads_salt_and_verifier "alice" "7" "5112011088245402083"
              "left over" 7 5112011088245402083 eq_refl eq_refl Hs Hv Hzs Hzv)
    as [Hshort Hlong].
  split; [exact Hlong|exact Hshort].
Defined.

Lemma srpCheck_returns_own_account_witness :
  (srpCheck "alice" "secret" initial).1 = Some (Ok (Some alice)) ∧
  getAccount "alice" = Some alice ∧ "secret" ≠ "".
Proof.
  assert (Hres : (srpCheck "alice" "secret" initial).1 = Some (Ok (Some alice)))
    by reflexivity.
  split; [exact Hres|].
  destruct (srpCheck_returns_own_account "alice" "secret" initial alice Hres)
    as (Hacc & _ & Hp).
  exact (conj Hacc Hp).
Defined.

Lemma srpCheck_settles_when_reachable_witness :
  reachable busy ∧ is_Some (srpCheck "bob" "pw" busy).1.
Proof.
  split; [exact busy_reachable|].
  exact (srpCheck_settles_when_reachable "bob" "pw" busy busy_reachable).
Defined.

Lemma outcome_is_final_witness :
  rtc step initial busy ∧ (now initial ≤ now busy)%Z ∧
  (handshakes initial ≤ handshakes busy)%nat.
Proof.
  split; [exact busy_reachable|].
  destruct (outcome_is_final initial busy busy_reachable) as (Hnow & Hhs & _).
  exact (conj Hnow Hhs).
Defined.

Lemma checked_reachable :
  reachable (settle 0 (srpCheck_call "alice" "secret" initial).2).
Proof.
  unfold reachable. eapply rtc_r; [|apply step_settle]. apply rtc_once, step_call.
Qed.

Lemma reachable_cache_structure_witness :
  let σ := settle 0 (srpCheck_call "alice" "secret" initial).2 in
  reachable σ ∧
  timers σ = [(60000%Z, fingerprint "alice" "secret" alice)] ∧
  is_Some (cache σ !! fingerprint "alice" "secret" alice) ∧
  NoDup (timers σ).*2.
Proof.
  intros σ.
  assert (Htimers : timers σ = [(60000%Z, fingerprint "alice" "secret" alice)])
    by (vm_compute; reflexivity).
  destruct (reachable_cache_structure σ checked_reachable)
    as (_ & _ & Hkey & Hnd).
  split; [exact checked_reachable|]. split; [exact Htimers|].
  split; [|exact Hnd].
  apply (Hkey (60000%Z, fingerprint "alice" "secret" alice)).
  rewrite Htimers. by apply list_elem_of_singleton.
Defined.

Lemma timed_entries_expire_within_window_witness :
  let σ := settle 0 (srpCheck_call "alice" "secret" initial).2 in
  let tm := (60000%Z, fingerprint "alice" "secret" alice) in
  reachable σ ∧ tm ∈ timers σ ∧
  cache σ !! tm.2 = Some 0%nat ∧ cache (advance 60000 σ) !! tm.2 = None.
Proof.
  intros σ tm.
  assert (Htimers : timers σ = [tm]) by (vm_compute; reflexivity).
  assert (Hin : tm ∈ timers σ).
  { rewrite Htimers. by apply list_elem_of_singleton. }
  split; [exact checked_reachable|]. split; [exact Hin|]. split; [reflexivity|].
  destruct (timed_entries_expire_within_window σ tm checked_reachable Hin)
    as [_ Hgone].
  apply Hgone. lia.
Defined.

Lemma initial_reachable : reachable initial.
Proof. apply rtc_refl. Qed.

Lemma thrown_entry_is_never_evicted_witness :
  reachable initial ∧ getAccount "bob" = Some bob ∧
  truthy (srp bob) = true ∧ "pw" ≠ "" ∧
  cache initial !! fingerprint "bob" "pw" bob = None ∧
  exchange "bob" "pw" bob = Throw (Error "malformed account") ∧
  (srpCheck "bob" "pw" initial).1 = Some (Throw (Error "malformed account")) ∧
  cache (foldl (λ s dt, advance dt s) (srpCheck "bob" "pw" initial).2
           [61000%Z; 3600000%Z])
    !! fingerprint "bob" "pw" bob = Some 0%nat.
Proof.
  assert (Hacc : getAccount "bob" = Some bob) by reflexivity.
  assert (Hsrp : truthy (srp bob) = true) by reflexivity.
  assert (Hp : "pw" ≠ "") by discriminate.
  assert (Hmiss : cache initial !! fingerprint "bob" "pw" bob = None)
    by reflexivity.
  assert (Hx : exchange "bob" "pw" bob = Throw (Error "malformed account"))
    by reflexivity.
  refine (conj initial_reachable (conj Hacc (conj Hsrp (conj Hp
           (conj Hmiss (conj Hx _)))))).
  destruct (thrown_entry_is_never_evicted "bob" "pw" initial bob
              (Error "malformed account") initial_reachable Hacc Hsrp Hp Hmiss Hx)
    as (Hres & _ & Hstay).
  split; [exact Hres|]. exact (proj1 (Hstay [61000%Z; 3600000%Z])).
Defined.

Lemma cached_verdict_is_shared_by_key_witness :
  "ab" +:+ "c" = "a" +:+ "bc" ∧ srp Shared.ab = srp Shared.a ∧
  getAccount (Perm := Shared.perm) "ab" = Some Shared.ab ∧
  getAccount (Perm := Shared.perm) "a" = Some Shared.a ∧
  "c" ≠ "" ∧ "bc" ≠ "" ∧
  cache initial !! fingerprint "ab" "c" Shared.ab = None ∧
  exchange "ab" "c" Shared.ab = Ok true ∧
  exchange "a" "bc" Shared.a = Ok false ∧
  (srpCheck (store := Shared.perm) "a" "bc" initial).1 = Some (Ok None) ∧
  (srpCheck (store := Shared.perm) "a" "bc"
     (srpCheck (store := Shared.perm) "ab" "c" initial).2).1
  = Some (Ok (Some Shared.a)).
Proof.
  assert (Hcat : "ab" +:+ "c" = "a" +:+ "bc") by reflexivity.
  assert (Hsame : srp Shared.ab = srp Shared.a) by reflexivity.
  assert (Hacc1 : getAccount (Perm := Shared.perm) "ab" = Some Shared.ab)
    by reflexivity.
  assert (Hacc2 : getAccount (Perm := Shared.perm) "a" = Some Shared.a)
    by reflexivity.
  assert (Hp1 : "c" ≠ "") by discriminate.
  assert (Hp2 : "bc" ≠ "") by discriminate.
  assert (Hmiss : cache initial !! fingerprint "ab" "c" Shared.ab = None)
    by reflexivity.
  assert (Hx : exchange "ab" "c" Shared.ab = Ok true) by reflexivity.
  refine (conj Hcat (conj Hsame (conj Hacc1 (conj Hacc2 (conj Hp1 (conj Hp2
           (conj Hmiss (conj Hx (conj eq_refl (conj eq_refl _)))))))))).
  destruct (cached_verdict_is_shared_by_key (store := Shared.perm)
              "ab" "c" "a" "bc" initial Shared.ab Shared.a
              Hcat Hsame Hacc1 Hacc2 Hp1 Hp2 Hmiss Hx) as [_ Hshared].
  by rewrite Hshared.
Defined.

Lemma login_then_current_username_witness :
  session anonymous = Some (mkSession None) ∧
  getAccount "nobody" = None ∧
  session (setLoggedIn anonymous (Some "Nobody") ∅).1.2
    = Some (mkSession (Some "nobody")) ∧
  getCurrentUsername (setLoggedIn anonymous (Some "Nobody") ∅).1.2 = "".
Proof.
  assert (Hs : session anonymous = Some (mkSession None)) by reflexivity.
  assert (Hnone : getAccount "Nobody" = None) by reflexivity.
  split; [exact Hs|]. split; [reflexivity|].
  destruct (login_then_current_username anonymous _ "Nobody" ∅ Hs) as [_ Hunknown].
  destruct (Hunknown Hnone) as (_ & Hsess & Hname).
  exact (conj Hsess Hname).
Defined.

Lemma login_overrides_previous_witness :
  session anonymous = Some (mkSession None) ∧
  (setLoggedIn (setLoggedIn anonymous (Some "alice") {[ "alice"; "bob" ]}).1.2
     (Some "bob") (setLoggedIn anonymous (Some "alice") {[ "alice"; "bob" ]}).2).1.2
  = (setLoggedIn anonymous (Some "bob") {[ "alice"; "bob" ]}).1.2.
Proof.
  assert (Hs : session anonymous = Some (mkSession None)) by reflexivity.
  split; [exact Hs|].
  destruct (login_overrides_previous anonymous _ (Some "alice") "bob"
              {[ "alice"; "bob" ]} Hs) as (_ & Hctx & _).
  exact Hctx.
Defined.

Lemma parse_written_table_witness :
  [("it", "IT", "Italy"); ("fr", "FR", "France")] ≠ [] ∧
  Forall Countries.fits [("it", "IT", "Italy"); ("fr", "FR", "France")] ∧
  Countries.parse
    (join (String Countries.LF "")
       [Countries.line_of "it" "IT" "Italy"; Countries.line_of "fr" "FR" "France"])
  = [Countries.mkCountry (Some "it") (Some "IT") (Some "Italy");
     Countries.mkCountry (Some "fr") (Some "FR") (Some "France")].
Proof.
  assert (Hne : [("it", "IT", "Italy"); ("fr", "FR", "France")] ≠ [])
    by discriminate.
  assert (Hfit : Forall Countries.fits
                   [("it", "IT", "Italy"); ("fr", "FR", "France")]).
  { repeat constructor. }
  split; [exact Hne|]. split; [exact Hfit|].
  exact (parse_written_table [("it", "IT", "Italy"); ("fr", "FR", "France")]
           Hne Hfit).
Defined.

Lemma internal_port_prefers_https_witness :
  Upnp.internal_port (Some Samples.status) = Upnp.Num 8080 ∧
  Upnp.internal_port
    (Some (Upnp.mkStatus (Some (Upnp.mkServer true 443))
                         (Some (Upnp.mkServer true 8080))))
  = Upnp.Num 443.
Proof.
  split.
  - rewrite (proj1 (proj2 (internal_port_prefers_https (Some Samples.status))));
      reflexivity.
  - apply (proj1 (internal_port_prefers_https _) (Upnp.mkServer true 443));
      [reflexivity|reflexivity|discriminate].
Defined.

Lemma nat_info_mapping_witness :
  Upnp.mapped (Upnp.getNatInfo Samples.probes) = Some Samples.mine ∧
  Upnp.externalPort (Upnp.getNatInfo Samples.probes) = Some 80%Z ∧
  Upnp.mapped (Upnp.getNatInfo Samples.offline) = None.
Proof.
  assert (Hm : Upnp.mapped (Upnp.getNatInfo Samples.probes) = Some Samples.mine)
    by reflexivity.
  split; [exact Hm|].
  destruct (proj1 (proj2 (nat_info_mapping Samples.probes)) Samples.mine Hm)
    as (before & after & _ & _ & _ & Hport).
  split; [exact Hport|].
  by destruct (proj1 (nat_info_mapping Samples.offline) eq_refl) as (_ & _ & Hnone & _).
Defined.

Lemma map_port_requests_witness :
  Upnp.map_port 503 (Upnp.getNatInfo Samples.offline) (Upnp.Num 80)
    Samples.accepting
  = (None, [Upnp.CreateMapping (Upnp.Num 8080) (Upnp.Num 80)]) ∧
  Upnp.map_port 503 (Upnp.getNatInfo Samples.probes) (Upnp.Num 80)
    Samples.refusing
  = (Some (Upnp.RouterError "refused"), [Upnp.RemoveMapping 8080 80]) ∧
  Upnp.map_port 503
    (Upnp.getNatInfo (Upnp.mkProbes None None None None None None []))
    (Upnp.Num 80) Samples.accepting
  = (Some (Upnp.ApiError 503 "upnp failed"), []).
Proof.
  split; [reflexivity|]. split; [reflexivity|].
  apply (proj1 (map_port_requests 503 _ (Upnp.Num 80) Samples.accepting)).
  reflexivity.
Defined.

Lemma check_server_endings_witness :
  Upnp.check_server 503 (Upnp.getNatInfo Samples.probes)
    [Samples.silent; Samples.vague; Samples.clear]
  = [Upnp.Rejects Upnp.AggregateError] ∧
  Upnp.check_server 503 (Upnp.getNatInfo Samples.probes)
    [Samples.silent; Samples.clear; Samples.vague]
  = [Upnp.Resolves true "clear.example"].
Proof.
  assert (Hip : truthy (Upnp.publicIp (Upnp.getNatInfo Samples.probes)) = true)
    by reflexivity.
  destruct (proj2 (check_server_endings 503 (Upnp.getNatInfo Samples.probes) [])
              Hip) as (_ & _ & Hfail & _).
  split; [by apply Hfail|reflexivity].
Defined.

Lemma split_join_round_trips_witness :
  split "|" "7|61|x" = ["7"; "61"; "x"] ∧
  join "|" (split "|" "7|61|x") = "7|61|x" ∧
  split "," (join "," ["AD"; "AE"; "AF"]) = ["AD"; "AE"; "AF"] ∧
  "AD,AE," +:+ join "," (split "," "AF,AG") = "AD,AE,AF,AG".
Proof.
  destruct split_join_round_trips as (Hsplit & Hjoin & Hplus).
  split; [reflexivity|]. split; [exact (proj1 (Hsplit "|"%char "7|61|x"))|].
  split; [|exact (Hplus "AD,AE," "AF,AG")].
  apply (Hjoin ","%char ["AD"; "AE"; "AF"]); [discriminate|repeat constructor].
Defined.

Lemma parse_edges_witness :
  Countries.parse_line "no bars" = Countries.mkCountry (Some "no bars") None None ∧
  Countries.parse_line (Countries.line_of "it" "IT" "Italy" +:+ "|" +:+ "more")
  = Countries.mkCountry (Some "it") (Some "IT") (Some "Italy") ∧
  length (Countries.parse (Countries.line_of "it" "IT" "Italy" +:+
                           String Countries.LF "")) = 2%nat.
Proof.
  destruct parse_edges as (Hlen & _ & _ & Hbare & Hmore).
  split; [by apply Hbare|]. split; [by apply Hmore|].
  rewrite Hlen. reflexivity.
Defined.

Lemma countries_lookup_witness :
  Countries.code <$> Countries.country_of "IT" = Some (Some "IT") ∧
  Countries.name <$> Countries.country_of "IT" = Some (Some "Italy") ∧
  Countries.country_of "it" = None ∧
  (∀ r : Countries.country, Countries.country_of "IT" = Some r →
     r ∈ Countries.ALL ∧ Countries.code r = Some "IT").
Proof.
  split; [vm_compute; reflexivity|]. split; [vm_compute; reflexivity|].
  split; [vm_compute; reflexivity|].
  intros r Hr.
  destruct (proj1 (proj2 (proj2 (proj2 (proj2 countries_lookup)))) "IT" r Hr)
    as (Hin & Hc & _).
  exact (conj Hin Hc).
Defined.

Lemma getPublicIp_endings_witness :
  Upnp.getPublicIp (λ text, text)
    (inr [None; Some (Some "no"); Some (Some "203.0.113.7")])
  = [Upnp.Gave (Some "203.0.113.7")] ∧
  Upnp.getPublicIp (λ text, text) (inr [None; Some (Some "no")])
  = [Upnp.Gave None] ∧
  Upnp.getPublicIp (λ text, text) (inr [Some (Some "203.0.113.7"); Some None])
  = [Upnp.Gave (Some "203.0.113.7"); Upnp.Gave None] ∧
  Upnp.getPublicIp (λ text, text) (inl (Upnp.RouterError "offline"))
  = [Upnp.Threw (Upnp.RouterError "offline")].
Proof.
  destruct (getPublicIp_endings (λ text, text))
    as (Hthrow & _ & _ & _ & _ & Hpairs).
  split; [|split; [reflexivity|split; [reflexivity|apply Hthrow]]].
  rewrite Hpairs. reflexivity.
Defined.
